(** * Response reconciliation of the carbonapi zipper (package [types])

    A shallow embedding of the partial-response aggregates of the zipper
    ([ServerTagResponse], [ServerInfoResponse], [ServerFindResponse],
    [ServerFetchResponse]) and of the per-series reconciler
    [MergeFetchResponses], followed by the properties established for them.

    Conventions of the embedding.
    - Go's [int64] fields are integers [Z]; the code only compares them.
    - Go's [float64] samples are binary64 primitive floats; the code only
      tests them with [math.IsNaN] and copies them.
    - A Go pointer that the code tests against [nil] is an [option].
    - A method that mutates its receiver (and possibly its argument) returns
      the new contents; a run that would dereference [nil] or index a slice
      out of range is [None].
    - Calls to the logger do not influence any returned or stored value and
      are left out.
    - The value slices of two distinct records are assumed not to share a
      backing array, so a record carries its samples as a list. *)

From Stdlib Require Import PrimFloat ZArith Lia.
From stdpp Require Import gmap strings list fin_maps.

Local Open Scope Z_scope.

(** ** Errors *)

(** The sentinel of the package that the reconciler returns, next to any
    other error value a caller may have recorded. *)
Inductive error : Type :=
  | ErrResponseStartTimeMismatch
  | ErrOther (msg : string).

Module Errors.

(** Modelled from the spec: package [zipper/errors] is not part of the
    sources at hand.  An error aggregate is an ordered sequence of recorded
    errors plus the flag [HaveFatalErrors]. *)
Record t : Type := mk {
  HaveFatalErrors : bool;
  Errors : list error
}.

(** [new(errors.Errors)]: the zero value. *)
Definition new : t := {| HaveFatalErrors := false; Errors := [] |}.

(** Modelled from the spec: [Add] appends and does not by itself set the
    fatal flag. *)
Definition Add (e : t) (err : error) : t :=
  {| HaveFatalErrors := HaveFatalErrors e; Errors := Errors e ++ [err] |}.

(** Modelled from the spec: [Merge] appends the other's errors and ORs the
    fatal flags.  The argument is a pointer; a [nil] argument contributes
    nothing. *)
Definition Merge (e : t) (e2 : option t) : t :=
  match e2 with
  | None => e
  | Some o =>
      {| HaveFatalErrors := HaveFatalErrors e || HaveFatalErrors o;
         Errors := Errors e ++ Errors o |}
  end.

(** Modelled from the spec: [FromErr] builds a one-element aggregate from an
    error, or an empty aggregate if the error is nil. *)
Definition FromErr (err : option error) : t :=
  match err with
  | None => new
  | Some e => Add new e
  end.

End Errors.

(** ** Series records *)

Module FetchResponse.

(** The record [protov3.FetchResponse] is declared outside the sources at
    hand.  Its fields are those of the protocol's message: the ten that the
    merge code reads or writes, and [PathExpression] and
    [HighPrecisionTimestamps], which no statement of the merge code reads or
    assigns. *)
Record t : Type := mk {
  Name : string;
  PathExpression : string;
  ConsolidationFunc : string;
  StartTime : Z;
  StopTime : Z;
  StepTime : Z;
  XFilesFactor : float;
  HighPrecisionTimestamps : bool;
  Values : list float;
  AppliedFunctions : list string;
  RequestStartTime : Z;
  RequestStopTime : Z
}.

End FetchResponse.

Import FetchResponse.

(** [math.IsNaN]. *)
Definition IsNaN (x : float) : bool := PrimFloat.is_nan x.

(** [swapFetchResponses]: eight parallel assignments; the request window
    ([RequestStartTime], [RequestStopTime]), [PathExpression] and
    [HighPrecisionTimestamps] are not among them. *)
Definition swapFetchResponses (m1 m2 : FetchResponse.t)
  : FetchResponse.t * FetchResponse.t :=
  ({| Name := Name m2; StartTime := StartTime m2; StopTime := StopTime m2;
      StepTime := StepTime m2;
      RequestStartTime := RequestStartTime m1;
      RequestStopTime := RequestStopTime m1;
      ConsolidationFunc := ConsolidationFunc m2;
      XFilesFactor := XFilesFactor m2;
      Values := Values m2;
      AppliedFunctions := AppliedFunctions m2;
      PathExpression := PathExpression m1;
      HighPrecisionTimestamps := HighPrecisionTimestamps m1 |},
   {| Name := Name m1; StartTime := StartTime m1; StopTime := StopTime m1;
      StepTime := StepTime m1;
      RequestStartTime := RequestStartTime m2;
      RequestStopTime := RequestStopTime m2;
      ConsolidationFunc := ConsolidationFunc m1;
      XFilesFactor := XFilesFactor m1;
      Values := Values m1;
      AppliedFunctions := AppliedFunctions m1;
      PathExpression := PathExpression m2;
      HighPrecisionTimestamps := HighPrecisionTimestamps m2 |}).

(** [m.Values = v]. *)
Definition setValues (m : FetchResponse.t) (v : list float) : FetchResponse.t :=
  {| Name := Name m; StartTime := StartTime m; StopTime := StopTime m;
     StepTime := StepTime m;
     RequestStartTime := RequestStartTime m;
     RequestStopTime := RequestStopTime m;
     ConsolidationFunc := ConsolidationFunc m;
     XFilesFactor := XFilesFactor m;
     Values := v;
     AppliedFunctions := AppliedFunctions m;
     PathExpression := PathExpression m;
     HighPrecisionTimestamps := HighPrecisionTimestamps m |}.

(** The loop
      [for i := 0; i < len(m2.Values); i++ {
         if math.IsNaN(m1.Values[i]) { m1.Values[i] = m2.Values[i] } }]
    run for [n] more rounds from index [i]; [v1] is [m1.Values] and [v2] is
    [m2.Values].  Indexing past the end of [v1] panics. *)
Fixpoint fillGaps (n : nat) (i : nat) (v1 v2 : list float) : option (list float) :=
  match n with
  | O => Some v1
  | S n' =>
      match v1 !! i, v2 !! i with
      | Some x, Some y =>
          fillGaps n' (S i) (if IsNaN x then <[i:=y]> v1 else v1) v2
      | _, _ => None
      end
  end.

(** [mergeFetchResponsesWithEqualStepTimes]: the new contents of [m1] and
    [m2] and the returned error. *)
Definition mergeFetchResponsesWithEqualStepTimes
    (m1 m2 : FetchResponse.t) (uuid : string)
  : option (FetchResponse.t * FetchResponse.t * option error) :=
  if decide (StartTime m1 ≠ StartTime m2) then
    Some (m1, m2, Some ErrResponseStartTimeMismatch)
  else
    let '(a, b) :=
      if decide (length (Values m1) < length (Values m2))%nat
      then swapFetchResponses m1 m2 else (m1, m2) in
    match fillGaps (length (Values b)) 0 (Values a) (Values b) with
    | Some v => Some (setValues a v, b, None)
    | None => None
    end.

(** [mergeFetchResponsesWithUnequalStepTimes]: the swap, a warning in the log,
    and [return nil]. *)
Definition mergeFetchResponsesWithUnequalStepTimes
    (m1 m2 : FetchResponse.t) (uuid : string)
  : option (FetchResponse.t * FetchResponse.t * option error) :=
  let '(a, b) :=
    if decide (StepTime m1 > StepTime m2)
    then swapFetchResponses m1 m2 else (m1, m2) in
  Some (a, b, None).

(** The dispatch of [MergeFetchResponses] up to the value of its local
    variable [err]. *)
Definition mergeFetchResponsesErr
    (m1 m2 : FetchResponse.t) (uuid : string)
  : option (FetchResponse.t * FetchResponse.t * option error) :=
  if decide (RequestStartTime m1 ≠ RequestStartTime m2) then
    Some (m1, m2, Some ErrResponseStartTimeMismatch)
  else if decide (StepTime m1 = StepTime m2) then
    mergeFetchResponsesWithEqualStepTimes m1 m2 uuid
  else
    mergeFetchResponsesWithUnequalStepTimes m1 m2 uuid.

(** [MergeFetchResponses]: the new contents of [m1] and [m2] and the returned
    aggregate [errors.FromErr(err)]. *)
Definition MergeFetchResponses
    (m1 m2 : FetchResponse.t) (uuid : string)
  : option (FetchResponse.t * FetchResponse.t * Errors.t) :=
  match mergeFetchResponsesErr m1 m2 uuid with
  | Some (a, b, err) => Some (a, b, Errors.FromErr err)
  | None => None
  end.

(** The gap-fill the spec describes: the base's sample at an index, unless it
    is not-a-number and the other sequence covers the index. *)
Definition gapFill (base other : list float) : list float :=
  imap (fun i x =>
          if IsNaN x then match other !! i with Some y => y | None => x end
          else x) base.

(** ** Parts shared by the aggregates *)

(** The type [Stats] and its method [Merge] are declared outside the sources
    at hand; the aggregates only call the additive [Merge]. *)
Class StatsOps (stats : Type) : Type := Stats_Merge : stats → stats → stats.

(** A single counter, to run the aggregates on concrete inputs. *)
#[export] Instance counter_StatsOps : StatsOps Z := Z.add.

(** [if second.Stats != nil { first.Stats.Merge(second.Stats) }]; the method
    is taken to dereference its receiver. *)
Definition mergeStats {stats : Type} `{StatsOps stats}
    (s1 s2 : option stats) : option (option stats) :=
  match s2 with
  | None => Some s1
  | Some b =>
      match s1 with
      | Some a => Some (Some (Stats_Merge a b))
      | None => None
      end
  end.

(** [if first.Err == nil { first.Err = new(errors.Errors) }] followed by
    [first.Err.Merge(second.Err)]: the aggregate [first.Err] then points to. *)
Definition mergeErr (e1 e2 : option Errors.t) : Errors.t :=
  Errors.Merge (default Errors.new e1) e2.

(** ** Tag responses *)

Module ServerTagResponse.

Record t : Type := mk {
  Server : string;
  Response : option (list string);
  Err : option Errors.t
}.

(** The loop over [second.Response]: [firstMap] is built once, before the
    loop, and is not extended when a name is appended. *)
Fixpoint appendMissing (firstMap : gset string) (resp : option (list string))
    (l2 : list string) : option (list string) :=
  match l2 with
  | [] => resp
  | v :: rest =>
      appendMissing firstMap
        (if decide (v ∈ firstMap) then resp else Some (default [] resp ++ [v]))
        rest
  end.

(** Method [Merge] of [ServerTagResponse]: the new contents of the receiver
    and the returned pointer. *)
Definition Merge (first second : t) : t * option Errors.t :=
  let err := mergeErr (Err first) (Err second) in
  match Response second with
  | None =>
      ({| Server := Server first; Response := Response first; Err := Some err |},
       Some err)
  | Some l2 =>
      let firstMap : gset string := list_to_set (default [] (Response first)) in
      ({| Server := Server first;
          Response := appendMissing firstMap (Response first) l2;
          Err := Some err |},
       None)
  end.

End ServerTagResponse.

Definition NewServerTagResponse : ServerTagResponse.t :=
  {| ServerTagResponse.Server := "";
     ServerTagResponse.Response := Some [];
     ServerTagResponse.Err := Some Errors.new |}.

(** ** Info responses *)

Module ServerInfoResponse.

Section Info.
Context {stats : Type} `{StatsOps stats}.
(** [protov3.MultiMetricsInfoResponse], opaque to the merge. *)
Context {MultiMetricsInfoResponse : Type}.

(** [protov3.ZipperInfoResponse]; [None] is the nil map. *)
Record ZipperInfoResponse : Type := mkInfo {
  Info : option (gmap string MultiMetricsInfoResponse)
}.

(** What ranging over, or reading from, the map sees: a nil map reads as the
    empty map. *)
Definition entries (r : ZipperInfoResponse) : gmap string MultiMetricsInfoResponse :=
  default ∅ (Info r).

Record t : Type := mk {
  Server : string;
  Response : option ZipperInfoResponse;
  Stats : option stats;
  Err : option Errors.t
}.

(** [for k, v := range second.Response.Info { first.Response.Info[k] = v }]
    over the entries in the order [l]; each round dereferences
    [first.Response] and assigns into its map, which panics on a nil map. *)
Fixpoint rangeAssign (l : list (string * MultiMetricsInfoResponse))
    (resp : option ZipperInfoResponse) : option (option ZipperInfoResponse) :=
  match l with
  | [] => Some resp
  | (k, v) :: rest =>
      match resp with
      | None => None
      | Some r =>
          match Info r with
          | None => None
          | Some m => rangeAssign rest (Some {| Info := Some (<[k:=v]> m) |})
          end
      end
  end.

(** Method [Merge] of [ServerInfoResponse]: the new contents of the receiver
    and the returned pointer.  Go ranges over a map in an unspecified order;
    [map_to_list] is one such order. *)
Definition Merge (first second : t) : option (t * option Errors.t) :=
  match mergeStats (Stats first) (Stats second) with
  | None => None
  | Some st =>
      let err := mergeErr (Err first) (Err second) in
      match Response second with
      | None =>
          Some ({| Server := Server first; Response := Response first;
                   Stats := st; Err := Some err |}, Some err)
      | Some r2 =>
          match rangeAssign (map_to_list (entries r2)) (Response first) with
          | None => None
          | Some resp =>
              Some ({| Server := Server first; Response := resp;
                       Stats := st; Err := Some err |}, None)
          end
      end
  end.

End Info.

Arguments ZipperInfoResponse : clear implicits.
Arguments t : clear implicits.

End ServerInfoResponse.

Definition NewServerInfoResponse {stats : Type} (zero : stats)
    {MultiMetricsInfoResponse : Type}
  : ServerInfoResponse.t stats MultiMetricsInfoResponse :=
  {| ServerInfoResponse.Server := "";
     ServerInfoResponse.Response := Some {| ServerInfoResponse.Info := Some ∅ |};
     ServerInfoResponse.Stats := Some zero;
     ServerInfoResponse.Err := Some Errors.new |}.

(** ** Find responses *)

Module ServerFindResponse.

(** [protov3.GlobMatch]: the merge reads [Path] only. *)
Record GlobMatch : Type := mkMatch {
  Path : string;
  IsLeaf : bool
}.

(** [protov3.GlobResponse]. *)
Record GlobResponse : Type := mkGlob {
  Name : string;
  Matches : list GlobMatch
}.

(** [protov3.MultiGlobResponse]. *)
Record MultiGlobResponse : Type := mkMulti {
  Metrics : list GlobResponse
}.

(** The key of [seenMatches]: [name + "." + path]. *)
Definition matchKey (name path : string) : string := name +:+ "." +:+ path.

(** The first loop, from position [i] on: it fills [seenMetrics] and
    [seenMatches] from the receiver's entries. *)
Fixpoint indexMetrics (i : nat) (ms : list GlobResponse)
    (seenMetrics : gmap string nat) (seenMatches : gset string)
  : gmap string nat * gset string :=
  match ms with
  | [] => (seenMetrics, seenMatches)
  | m :: rest =>
      indexMetrics (S i) rest (<[Name m := i]> seenMetrics)
        (foldl (fun seen mm => {[matchKey (Name m) (Path mm)]} ∪ seen)
               seenMatches (Matches m))
  end.

(** The inner loop over [m.Matches] for an entry found at position [i]. *)
Fixpoint mergeMatches (i : nat) (mms : list GlobMatch)
    (metrics : list GlobResponse) (seenMatches : gset string)
  : option (list GlobResponse * gset string) :=
  match mms with
  | [] => Some (metrics, seenMatches)
  | mm :: rest =>
      match metrics !! i with
      | None => None
      | Some f =>
          let key := matchKey (Name f) (Path mm) in
          if decide (key ∈ seenMatches) then
            mergeMatches i rest metrics seenMatches
          else
            mergeMatches i rest
              (<[i := {| Name := Name f; Matches := Matches f ++ [mm] |}]> metrics)
              ({[key]} ∪ seenMatches)
      end
  end.

(** The loop over [second.Response.Metrics]; [seenMetrics] is not extended
    when an entry is appended. *)
Fixpoint mergeMetrics (seenMetrics : gmap string nat) (ms : list GlobResponse)
    (metrics : list GlobResponse) (seenMatches : gset string)
  : option (list GlobResponse * gset string) :=
  match ms with
  | [] => Some (metrics, seenMatches)
  | m :: rest =>
      match seenMetrics !! Name m with
      | None => mergeMetrics seenMetrics rest (metrics ++ [m]) seenMatches
      | Some i =>
          match mergeMatches i (Matches m) metrics seenMatches with
          | None => None
          | Some (metrics', seen') => mergeMetrics seenMetrics rest metrics' seen'
          end
      end
  end.

Section Find.
Context {stats : Type} `{StatsOps stats}.

Record t : Type := mk {
  Server : string;
  Response : option MultiGlobResponse;
  Stats : option stats;
  Err : option Errors.t
}.

(** Method [Merge] of [ServerFindResponse]: the new contents of the receiver
    and the returned pointer. *)
Definition Merge (first second : t) : option (t * option Errors.t) :=
  match mergeStats (Stats first) (Stats second) with
  | None => None
  | Some st =>
      let err := mergeErr (Err first) (Err second) in
      match Response second with
      | None =>
          Some ({| Server := Server first; Response := Response first;
                   Stats := st; Err := Some err |}, Some err)
      | Some r2 =>
          match Response first with
          | None => None
          | Some r1 =>
              let '(seenMetrics, seenMatches) :=
                indexMetrics 0 (Metrics r1) ∅ ∅ in
              match mergeMetrics seenMetrics (Metrics r2) (Metrics r1) seenMatches with
              | None => None
              | Some (metrics, _) =>
                  Some ({| Server := Server first;
                           Response := Some {| Metrics := metrics |};
                           Stats := st; Err := Some err |}, None)
              end
          end
      end
  end.

End Find.

Arguments t : clear implicits.

End ServerFindResponse.

Definition NewServerFindResponse {stats : Type} (zero : stats)
  : ServerFindResponse.t stats :=
  {| ServerFindResponse.Server := "";
     ServerFindResponse.Response := Some {| ServerFindResponse.Metrics := [] |};
     ServerFindResponse.Stats := Some zero;
     ServerFindResponse.Err := Some Errors.new |}.

(** ** Fetch responses *)

Module ServerFetchResponse.

(** [protov3.MultiFetchResponse]. *)
Record MultiFetchResponse : Type := mkMulti {
  Metrics : list FetchResponse.t
}.

Record fetchResponseCoordinates : Type := mkCoord {
  name : string;
  from : Z;
  until : Z
}.

#[export] Instance fetchResponseCoordinates_eq_dec : EqDecision fetchResponseCoordinates.
Proof. solve_decision. Defined.

#[export] Instance fetchResponseCoordinates_countable : Countable fetchResponseCoordinates.
Proof.
  refine (inj_countable' (fun c => (name c, from c, until c))
                         (fun p => {| name := p.1.1; from := p.1.2; until := p.2 |}) _).
  by intros [].
Defined.

Definition coordinates (r : FetchResponse.t) : fetchResponseCoordinates :=
  {| name := FetchResponse.Name r;
     from := FetchResponse.RequestStartTime r;
     until := FetchResponse.RequestStopTime r |}.

(** The first loop, from position [i] on: the index [metrics] of the
    receiver's series. *)
Fixpoint indexSeries (i : nat) (ms : list FetchResponse.t)
    (metrics : gmap fetchResponseCoordinates nat)
  : gmap fetchResponseCoordinates nat :=
  match ms with
  | [] => metrics
  | m :: rest => indexSeries (S i) rest (<[coordinates m := i]> metrics)
  end.

(** The loop over [second.Response.Metrics]: the receiver's series and the new
    contents of the series of [second] that were visited.  The aggregate
    returned by [MergeFetchResponses] is bound to [err] and not used: whatever
    it is, the loop goes on with the next series. *)
Fixpoint mergeSeries (metrics : gmap fetchResponseCoordinates nat)
    (uuid : string) (ss : list FetchResponse.t) (fm : list FetchResponse.t)
  : option (list FetchResponse.t * list FetchResponse.t) :=
  match ss with
  | [] => Some (fm, [])
  | s :: rest =>
      match metrics !! coordinates s with
      | Some j =>
          match fm !! j with
          | None => None
          | Some f =>
              match MergeFetchResponses f s uuid with
              | None => None
              | Some (f', s', err) =>
                  match mergeSeries metrics uuid rest (<[j := f']> fm) with
                  | None => None
                  | Some (fm', ss') => Some (fm', s' :: ss')
                  end
              end
          end
      | None =>
          match mergeSeries metrics uuid rest (fm ++ [s]) with
          | None => None
          | Some (fm', ss') => Some (fm', s :: ss')
          end
      end
  end.

Section Fetch.
Context {stats : Type} `{StatsOps stats}.

Record t : Type := mk {
  Server : string;
  Response : option MultiFetchResponse;
  Stats : option stats;
  Err : option Errors.t
}.

(** Method [Merge] of [ServerFetchResponse]: the new contents of the receiver
    and of the argument. *)
Definition Merge (first second : t) (uuid : string) : option (t * t) :=
  let server :=
    if decide (Server first = "" ∧ Server second ≠ "")
    then Server second else Server first in
  match mergeStats (Stats first) (Stats second) with
  | None => None
  | Some st =>
      let err := mergeErr (Err first) (Err second) in
      let stopped :=
        {| Server := server; Response := Response first;
           Stats := st; Err := Some err |} in
      if Errors.HaveFatalErrors err then Some (stopped, second)
      else
        match Response second with
        | None => Some (stopped, second)
        | Some r2 =>
            match Response first with
            | None => None
            | Some r1 =>
                let metrics := indexSeries 0 (Metrics r1) ∅ in
                match mergeSeries metrics uuid (Metrics r2) (Metrics r1) with
                | None => None
                | Some (fm, ss) =>
                    Some ({| Server := server;
                             Response := Some {| Metrics := fm |};
                             Stats := st; Err := Some err |},
                          {| Server := Server second;
                             Response := Some {| Metrics := ss |};
                             Stats := Stats second; Err := Err second |})
                end
            end
        end
  end.

End Fetch.

Arguments t : clear implicits.

End ServerFetchResponse.

Definition NewServerFetchResponse {stats : Type} (zero : stats)
  : ServerFetchResponse.t stats :=
  {| ServerFetchResponse.Server := "";
     ServerFetchResponse.Response := Some {| ServerFetchResponse.Metrics := [] |};
     ServerFetchResponse.Stats := Some zero;
     ServerFetchResponse.Err := Some Errors.new |}.

(** ** Sample inputs *)

Module Samples.

(** The series of the spec's gap-fill example: a = [1, NaN, 3] and
    b = [NaN, 2, NaN], same window, same step. *)
Definition a : FetchResponse.t :=
  {| Name := "cpu.load"; StartTime := 0; StopTime := 30; StepTime := 10;
     RequestStartTime := 0; RequestStopTime := 30;
     ConsolidationFunc := "avg"; XFilesFactor := 0%float;
     Values := [1%float; nan; 3%float]; AppliedFunctions := [];
     PathExpression := "cpu.*"; HighPrecisionTimestamps := false |}.

Definition b : FetchResponse.t := setValues a [nan; 2%float; nan].

(** A one-minute and a ten-second observation of one metric, asked for with
    the same requested start but different requested stops, under different
    path expressions and timestamp precisions. *)
Definition coarse : FetchResponse.t :=
  {| Name := "cpu.load"; StartTime := 0; StopTime := 120; StepTime := 60;
     RequestStartTime := 0; RequestStopTime := 120;
     ConsolidationFunc := "avg"; XFilesFactor := 0%float;
     Values := [1%float; 2%float]; AppliedFunctions := [];
     PathExpression := "cpu.*"; HighPrecisionTimestamps := false |}.

Definition fine : FetchResponse.t :=
  {| Name := "cpu.load"; StartTime := 0; StopTime := 30; StepTime := 10;
     RequestStartTime := 0; RequestStopTime := 30;
     ConsolidationFunc := "max"; XFilesFactor := 0%float;
     Values := [5%float; 6%float; 7%float]; AppliedFunctions := ["scale"];
     PathExpression := "cpu.load"; HighPrecisionTimestamps := true |}.

(** A short and a long observation with equal step and start, asked for with
    the same requested start but different requested stops, under different
    path expressions and timestamp precisions. *)
Definition short : FetchResponse.t :=
  {| Name := "cpu.load"; StartTime := 0; StopTime := 10; StepTime := 10;
     RequestStartTime := 0; RequestStopTime := 10;
     ConsolidationFunc := "avg"; XFilesFactor := 0%float;
     Values := [nan]; AppliedFunctions := [];
     PathExpression := "cpu.*"; HighPrecisionTimestamps := false |}.

Definition long : FetchResponse.t :=
  {| Name := "cpu.load"; StartTime := 0; StopTime := 20; StepTime := 10;
     RequestStartTime := 0; RequestStopTime := 20;
     ConsolidationFunc := "max"; XFilesFactor := 0%float;
     Values := [4%float; nan]; AppliedFunctions := ["scale"];
     PathExpression := "cpu.load"; HighPrecisionTimestamps := true |}.

End Samples.

Module FetchSamples.
Import ServerFetchResponse.

(** Another observation of [Samples.a]: same name, same requested window,
    same step, but data that starts one step later. *)
Definition shifted : FetchResponse.t :=
  {| Name := "cpu.load"; StartTime := 10; StopTime := 40; StepTime := 10;
     RequestStartTime := 0; RequestStopTime := 30;
     ConsolidationFunc := "avg"; XFilesFactor := 0%float;
     Values := [nan; 2%float; nan]; AppliedFunctions := [];
     PathExpression := "cpu.*"; HighPrecisionTimestamps := false |}.

(** A series the receiver does not have. *)
Definition other : FetchResponse.t :=
  {| Name := "mem.free"; StartTime := 0; StopTime := 30; StepTime := 10;
     RequestStartTime := 0; RequestStopTime := 30;
     ConsolidationFunc := "avg"; XFilesFactor := 0%float;
     Values := [7%float; 8%float; 9%float]; AppliedFunctions := [];
     PathExpression := "mem.*"; HighPrecisionTimestamps := false |}.

Definition running : ServerFetchResponse.t Z :=
  {| Server := "shard-1"; Response := Some {| Metrics := [Samples.a] |};
     Stats := Some 1; Err := Some Errors.new |}.

Definition partial : ServerFetchResponse.t Z :=
  {| Server := "shard-2"; Response := Some {| Metrics := [shifted; other] |};
     Stats := Some 1; Err := Some Errors.new |}.

(** A partial response whose shard was flagged fatal. *)
Definition poisoned : ServerFetchResponse.t Z :=
  {| Server := "shard-3"; Response := Some {| Metrics := [Samples.b; other] |};
     Stats := Some 1;
     Err := Some {| Errors.HaveFatalErrors := true;
                    Errors.Errors := [ErrOther "shard unreachable"] |} |}.

End FetchSamples.

Module InfoSamples.
Import ServerInfoResponse.

(** The spec's example: {"m1": X} merged with {"m1": Y}; the metadata records
    are stood for by their retention in seconds. *)
Definition running : ServerInfoResponse.t Z Z :=
  {| Server := "shard-1";
     Response := Some {| Info := Some {[ "m1" := 60; "m0" := 10 ]} |};
     Stats := Some 1; Err := Some Errors.new |}.

Definition partial : ServerInfoResponse.t Z Z :=
  {| Server := "shard-2";
     Response := Some {| Info := Some {[ "m1" := 300 ]} |};
     Stats := Some 1; Err := Some Errors.new |}.

End InfoSamples.

(** ** The find merge in the words of the spec *)

Module FindSpec.
Import ServerFindResponse.

(** An entry with further matches appended; its name and its own matches are
    untouched. *)
Definition addMatches (f : GlobResponse) (extra : list GlobMatch) : GlobResponse :=
  {| Name := Name f; Matches := Matches f ++ extra |}.

Definition names (ms : list GlobResponse) : list string := Name <$> ms.

(** The position of the existing entry of a name: the last one, should the
    receiver hold several entries of that name. *)
Fixpoint lastIndex (n : string) (ms : list GlobResponse) : option nat :=
  match ms with
  | [] => None
  | m :: rest =>
      match lastIndex n rest with
      | Some j => Some (S j)
      | None => if decide (Name m = n) then Some 0%nat else None
      end
  end.

(** "If the name is new, append the whole entry": the entries of [second]
    whose name the receiver lacks, in the order of [second]. *)
Definition appendedEntries (F S : list GlobResponse) : list GlobResponse :=
  filter (fun m => Name m ∉ names F) S.

(** "If the name already exists ...": the match entries of [second] under a
    name the receiver has, each with that name, in the order of [second]. *)
Definition candidates (F S : list GlobResponse) : list (string * GlobMatch) :=
  mbind (fun m => pair (Name m) <$> Matches m)
        (filter (fun m => Name m ∈ names F) S).

(** The string under which a (name, match) pair is remembered. *)
Definition candKey (c : string * GlobMatch) : string := matchKey c.1 (Path c.2).

(** What has been seen of the receiver: the key of every match of every
    entry. *)
Definition seenKeys (F : list GlobResponse) : gset string :=
  list_to_set (mbind (fun f => (fun mm => matchKey (Name f) (Path mm)) <$> Matches f) F).

(** "... append only the match entries whose (name, path) pair was not
    already seen": a candidate is kept unless its key has been seen, and a
    kept candidate's key counts as seen from then on. *)
Fixpoint novelMatches (seen : gset string) (cands : list (string * GlobMatch))
  : list (string * GlobMatch) :=
  match cands with
  | [] => []
  | c :: rest =>
      if decide (candKey c ∈ seen) then novelMatches seen rest
      else c :: novelMatches ({[candKey c]} ∪ seen) rest
  end.

(** "... preserving first's existing entries untouched and second's novel
    matches appended in second's order": every entry of the receiver
    followed by the kept matches filed under its name. *)
Definition fileMatches (F : list GlobResponse) (kept : list (string * GlobMatch))
    (M : list GlobResponse) : list GlobResponse :=
  imap (fun i f =>
          addMatches f (snd <$> filter (fun c => lastIndex c.1 F = Some i) kept)) M.

Definition mergedEntries (F : list GlobResponse) (kept : list (string * GlobMatch))
  : list GlobResponse :=
  fileMatches F kept F.

Definition mergeSpec (F S : list GlobResponse) : list GlobResponse :=
  mergedEntries F (novelMatches (seenKeys F) (candidates F S))
  ++ appendedEntries F S.

End FindSpec.

Module FindSamples.
Import ServerFindResponse.

(** A receiver with the entries "a.b" (one match, "c") and "a" (no match),
    and a partial response whose entry "a" has the matches "b.c" and "d". *)
Definition running : ServerFindResponse.t Z :=
  {| Server := "shard-1";
     Response := Some {| Metrics :=
       [ {| Name := "a.b"; Matches := [ {| Path := "c"; IsLeaf := true |} ] |};
         {| Name := "a"; Matches := [] |} ] |};
     Stats := Some 1; Err := Some Errors.new |}.

Definition partial : ServerFindResponse.t Z :=
  {| Server := "shard-2";
     Response := Some {| Metrics :=
       [ {| Name := "a"; Matches := [ {| Path := "b.c"; IsLeaf := true |};
                                      {| Path := "d"; IsLeaf := true |} ] |};
         {| Name := "z"; Matches := [ {| Path := "y"; IsLeaf := false |} ] |} ] |};
     Stats := Some 1; Err := Some Errors.new |}.

(** A partial response that lists the new name "z" twice. *)
Definition repeated : ServerFindResponse.t Z :=
  {| Server := "shard-3";
     Response := Some {| Metrics :=
       [ {| Name := "z"; Matches := [ {| Path := "y"; IsLeaf := false |} ] |};
         {| Name := "z"; Matches := [ {| Path := "y"; IsLeaf := false |} ] |} ] |};
     Stats := Some 1; Err := Some Errors.new |}.

End FindSamples.

Module TagSamples.
Import ServerTagResponse.

(** A shard that answered with a name and recorded a fatal error. *)
Definition degraded : ServerTagResponse.t :=
  {| Server := "shard-2"; Response := Some ["region"];
     Err := Some {| Errors.HaveFatalErrors := true;
                    Errors.Errors := [ErrOther "shard unreachable"] |} |}.

(** A shard that answered with no body. *)
Definition failed : ServerTagResponse.t :=
  {| Server := "shard-3"; Response := None;
     Err := Some {| Errors.HaveFatalErrors := true;
                    Errors.Errors := [ErrOther "shard unreachable"] |} |}.

End TagSamples.

(** ** Notions used to state further properties *)

(** A series has a gap at an index when it has no sample there or the sample
    is not-a-number. *)
Definition gapAt (v : list float) (i : nat) : Prop :=
  ∀ y, v !! i = Some y → IsNaN y = true.

(** The condition under which the reconciler reports
    [ErrResponseStartTimeMismatch]. *)
Definition startMismatch (m1 m2 : FetchResponse.t) : Prop :=
  RequestStartTime m1 ≠ RequestStartTime m2
  ∨ (StepTime m1 = StepTime m2 ∧ StartTime m1 ≠ StartTime m2).

Module FetchNotions.
Import ServerFetchResponse.

(** The series of a partial response that shares the lookup key of [f]: the
    first one, should there be several. *)
Definition partner (ss : list FetchResponse.t) (f : FetchResponse.t)
  : option FetchResponse.t :=
  head (filter (fun s => coordinates s = coordinates f) ss).

(** A receiver series after it met its partner, if it has one. *)
Definition reconciled (uuid : string) (ss : list FetchResponse.t)
    (f : FetchResponse.t) : FetchResponse.t :=
  match partner ss f with
  | Some s =>
      match MergeFetchResponses f s uuid with
      | Some (a, _, _) => a
      | None => f
      end
  | None => f
  end.

(** A healthy replica of shard-1 holding the series b of the gap-fill
    example and a series the receiver lacks. *)
Definition replica : ServerFetchResponse.t Z :=
  {| Server := "shard-4";
     Response := Some {| Metrics := [Samples.b; FetchSamples.other] |};
     Stats := Some 1; Err := Some Errors.new |}.

End FetchNotions.

Module MoreSamples.

(** A tag aggregate that already holds two names. *)
Definition regions : ServerTagResponse.t :=
  {| ServerTagResponse.Server := "shard-1";
     ServerTagResponse.Response := Some ["region"; "zone"];
     ServerTagResponse.Err := Some Errors.new |}.

(** An info aggregate whose response has a nil map. *)
Definition unallocated : ServerInfoResponse.t Z Z :=
  {| ServerInfoResponse.Server := "shard-1";
     ServerInfoResponse.Response := Some {| ServerInfoResponse.Info := None |};
     ServerInfoResponse.Stats := Some 1;
     ServerInfoResponse.Err := Some Errors.new |}.

End MoreSamples.
(** * Properties *)

(** ** The gap-filling loop *)

Lemma gapFill_lookup (base other : list float) (j : nat) :
  gapFill base other !! j =
  (fun x => if IsNaN x then default x (other !! j) else x) <$> base !! j.
Proof.
  unfold gapFill. rewrite list_lookup_imap.
  destruct (base !! j) as [x|]; simpl; [|done].
  destruct (IsNaN x); [|done]. by destruct (other !! j).
Qed.

Lemma gapFill_length (base other : list float) :
  length (gapFill base other) = length base.
Proof. unfold gapFill. by rewrite length_imap. Qed.

(** The loop never indexes out of range once the longer sequence is the
    base, and from index [i] on it computes the gap-fill. *)
Lemma fillGaps_lookup (n : nat) :
  ∀ (i : nat) (v1 v2 : list float),
    (i + n = length v2)%nat → (length v2 ≤ length v1)%nat →
    ∃ v, fillGaps n i v1 v2 = Some v ∧
         ∀ j, v !! j = if decide (i ≤ j)%nat then gapFill v1 v2 !! j else v1 !! j.
Proof.
  induction n as [|n IH]; intros i v1 v2 Hin Hle; simpl.
  - exists v1. split; [done|]. intros j. case_decide; [|done].
    rewrite gapFill_lookup, (lookup_ge_None_2 v2 j) by lia.
    destruct (v1 !! j) as [x|]; simpl; [|done]. by destruct (IsNaN x).
  - destruct (lookup_lt_is_Some_2 v1 i) as [x Hx]; [lia|].
    destruct (lookup_lt_is_Some_2 v2 i) as [y Hy]; [lia|].
    rewrite Hx, Hy.
    set (v1' := if IsNaN x then <[i:=y]> v1 else v1).
    assert (Hlen : length v1' = length v1).
    { unfold v1'. destruct (IsNaN x); [by rewrite length_insert|done]. }
    assert (Hother : ∀ j, j ≠ i → v1' !! j = v1 !! j).
    { intros j Hj. unfold v1'.
      destruct (IsNaN x); [by rewrite list_lookup_insert_ne|done]. }
    destruct (IH (S i) v1' v2) as (v & Hv & Hlook); [lia|lia|].
    exists v. split; [done|]. intros j. rewrite Hlook.
    destruct (decide (S i ≤ j)%nat) as [Hj|Hj].
    + rewrite decide_True by lia.
      rewrite !gapFill_lookup, Hother by lia. done.
    + destruct (decide (i ≤ j)%nat) as [Hij|Hij].
      * assert (j = i) as -> by lia.
        rewrite gapFill_lookup, Hx, Hy. simpl. unfold v1'.
        destruct (IsNaN x); [|done].
        by rewrite list_lookup_insert_eq by (by eapply lookup_lt_Some).
      * apply Hother. lia.
Qed.

Lemma fillGaps_gapFill (v1 v2 : list float) :
  (length v2 ≤ length v1)%nat →
  fillGaps (length v2) 0 v1 v2 = Some (gapFill v1 v2).
Proof.
  intros Hle.
  destruct (fillGaps_lookup (length v2) 0 v1 v2) as (v & -> & Hlook); [lia|done|].
  f_equal. apply list_eq. intros j. rewrite Hlook.
  by rewrite decide_True by lia.
Qed.

Lemma gapFill_self (v : list float) : gapFill v v = v.
Proof.
  apply list_eq. intros j. rewrite gapFill_lookup.
  destruct (v !! j) as [x|] eqn:Hx; simpl; [|done].
  by destruct (IsNaN x).
Qed.

Lemma setValues_same (m : FetchResponse.t) : setValues m (Values m) = m.
Proof. by destruct m. Qed.

(** The equal-step merge as a closed form: the record with at least as many
    samples is the base and receives the gap-fill. *)
Lemma mergeFetchResponsesWithEqualStepTimes_eq (m1 m2 : FetchResponse.t) (uuid : string) :
  StartTime m1 = StartTime m2 →
  mergeFetchResponsesWithEqualStepTimes m1 m2 uuid =
  if decide (length (Values m1) < length (Values m2))%nat
  then Some (setValues (swapFetchResponses m1 m2).1 (gapFill (Values m2) (Values m1)),
             (swapFetchResponses m1 m2).2, None)
  else Some (setValues m1 (gapFill (Values m1) (Values m2)), m2, None).
Proof.
  intros Hst. unfold mergeFetchResponsesWithEqualStepTimes.
  rewrite decide_False by (intros H; by apply H).
  case_decide as Hlen; simpl; rewrite fillGaps_gapFill by lia; done.
Qed.

(** The reconciler never indexes out of range: it returns on every pair of
    records. *)
Lemma MergeFetchResponses_total (m1 m2 : FetchResponse.t) (uuid : string) :
  is_Some (MergeFetchResponses m1 m2 uuid).
Proof.
  unfold MergeFetchResponses, mergeFetchResponsesErr.
  destruct (decide (RequestStartTime m1 ≠ RequestStartTime m2)); [by eexists|].
  destruct (decide (StepTime m1 = StepTime m2)).
  - destruct (decide (StartTime m1 = StartTime m2)) as [Heq|Hne].
    + rewrite mergeFetchResponsesWithEqualStepTimes_eq by done.
      by destruct (decide (length (Values m1) < length (Values m2))%nat); eexists.
    + unfold mergeFetchResponsesWithEqualStepTimes.
      rewrite decide_True by done. by eexists.
  - unfold mergeFetchResponsesWithUnequalStepTimes.
    by destruct (decide (StepTime m1 > StepTime m2)); eexists.
Qed.

(** C1 — For two records with equal RequestStartTime, StepTime and StartTime,
    MergeFetchResponses succeeds and leaves in m1 the value sequence of the
    record with at least as many samples (the base; m1 on a tie), in which a
    sample is replaced only when it is not-a-number and the other record
    covers its index, and then by the other record's sample at that index;
    every other sample is the base's own.  Merging a record with an identical
    copy of itself leaves it unchanged. *)
Theorem MergeFetchResponses_gap_fill (m1 m2 : FetchResponse.t) (uuid : string) :
  RequestStartTime m1 = RequestStartTime m2 →
  StepTime m1 = StepTime m2 →
  StartTime m1 = StartTime m2 →
  let shorter := bool_decide (length (Values m1) < length (Values m2))%nat in
  let base := if shorter then m2 else m1 in
  let other := if shorter then m1 else m2 in
  ∃ m1' m2',
    MergeFetchResponses m1 m2 uuid = Some (m1', m2', Errors.FromErr None)
    ∧ (length (Values other) ≤ length (Values base))%nat
    ∧ length (Values m1') = length (Values base)
    ∧ (∀ i x, Values base !! i = Some x →
         Values m1' !! i =
         Some (if IsNaN x
               then match Values other !! i with Some y => y | None => x end
               else x))
    ∧ (m2 = m1 → m1' = m1).
Proof.
  intros Hreq Hstep Hstart. cbv zeta.
  unfold MergeFetchResponses, mergeFetchResponsesErr.
  rewrite decide_False by (intros H; by apply H).
  rewrite decide_True by done.
  rewrite mergeFetchResponsesWithEqualStepTimes_eq by done.
  destruct (decide (length (Values m1) < length (Values m2))%nat) as [Hlt|Hge];
    [rewrite bool_decide_eq_true_2 by done|rewrite bool_decide_eq_false_2 by done];
    simpl; eexists _, _; (split; [reflexivity|]); simpl.
  - split; [lia|]. split; [apply gapFill_length|]. split.
    + intros i x Hx. rewrite gapFill_lookup, Hx. simpl.
      by destruct (IsNaN x), (Values m1 !! i).
    + intros ->. lia.
  - split; [lia|]. split; [apply gapFill_length|]. split.
    + intros i x Hx. rewrite gapFill_lookup, Hx. simpl.
      by destruct (IsNaN x), (Values m2 !! i).
    + intros ->. by rewrite gapFill_self, setValues_same.
Qed.

Lemma MergeFetchResponses_gap_fill_witness :
  RequestStartTime Samples.a = RequestStartTime Samples.b ∧
  StepTime Samples.a = StepTime Samples.b ∧
  StartTime Samples.a = StartTime Samples.b ∧
  ∃ m1' m2',
    MergeFetchResponses Samples.a Samples.b "uuid" = Some (m1', m2', Errors.FromErr None)
    ∧ (length (Values Samples.b) ≤ length (Values Samples.a))%nat
    ∧ length (Values m1') = length (Values Samples.a)
    ∧ (∀ i x, Values Samples.a !! i = Some x →
         Values m1' !! i =
         Some (if IsNaN x
               then match Values Samples.b !! i with Some y => y | None => x end
               else x))
    ∧ (Samples.b = Samples.a → m1' = Samples.a).
Proof.
  split; [reflexivity|]. split; [reflexivity|]. split; [reflexivity|].
  apply (MergeFetchResponses_gap_fill Samples.a Samples.b "uuid"); reflexivity.
Defined.

(** The spec's example: a = [1, NaN, 3] merged with b = [NaN, 2, NaN] gives
    [1, 2, 3], and a merged with itself is a. *)
Example MergeFetchResponses_spec_example :
  MergeFetchResponses Samples.a Samples.b "uuid"
  = Some (setValues Samples.a [1%float; 2%float; 3%float], Samples.b, Errors.new)
  ∧ MergeFetchResponses Samples.a Samples.a "uuid"
    = Some (Samples.a, Samples.a, Errors.new).
Proof. split; vm_compute; reflexivity. Qed.

(** ** The swap and the unequal-step merge *)

(** C4 (as amended) — For two records with equal RequestStartTime and unequal
    StepTime, MergeFetchResponses succeeds with an empty, non-fatal
    aggregate.  m1 ends with the full value sequence of the smaller-step
    record and with its name, start, stop and step time, consolidation
    function, x-files-factor and applied-function list, while
    RequestStopTime, PathExpression and HighPrecisionTimestamps (and
    RequestStartTime, equal on both sides) remain m1's own.  No sample of
    the larger-step record is used: its value sequence and those seven
    fields end, unchanged, in m2. *)
Theorem MergeFetchResponses_unequal_step (m1 m2 : FetchResponse.t) (uuid : string) :
  RequestStartTime m1 = RequestStartTime m2 →
  StepTime m1 ≠ StepTime m2 →
  let swapped := bool_decide (StepTime m1 > StepTime m2) in
  let finer := if swapped then m2 else m1 in
  let coarser := if swapped then m1 else m2 in
  ∃ m1' m2' e,
    MergeFetchResponses m1 m2 uuid = Some (m1', m2', e)
    ∧ Errors.Errors e = [] ∧ Errors.HaveFatalErrors e = false
    ∧ StepTime finer < StepTime coarser
    ∧ m1' = {| Name := Name finer; StartTime := StartTime finer;
               StopTime := StopTime finer; StepTime := StepTime finer;
               ConsolidationFunc := ConsolidationFunc finer;
               XFilesFactor := XFilesFactor finer;
               Values := Values finer;
               AppliedFunctions := AppliedFunctions finer;
               RequestStartTime := RequestStartTime m1;
               RequestStopTime := RequestStopTime m1;
               PathExpression := PathExpression m1;
               HighPrecisionTimestamps := HighPrecisionTimestamps m1 |}
    ∧ m2' = {| Name := Name coarser; StartTime := StartTime coarser;
               StopTime := StopTime coarser; StepTime := StepTime coarser;
               ConsolidationFunc := ConsolidationFunc coarser;
               XFilesFactor := XFilesFactor coarser;
               Values := Values coarser;
               AppliedFunctions := AppliedFunctions coarser;
               RequestStartTime := RequestStartTime m2;
               RequestStopTime := RequestStopTime m2;
               PathExpression := PathExpression m2;
               HighPrecisionTimestamps := HighPrecisionTimestamps m2 |}.
Proof.
  intros Hreq Hstep. cbv zeta.
  unfold MergeFetchResponses, mergeFetchResponsesErr.
  rewrite decide_False by (intros H; by apply H).
  rewrite decide_False by done.
  unfold mergeFetchResponsesWithUnequalStepTimes.
  destruct (decide (StepTime m1 > StepTime m2)) as [Hgt|Hle];
    [rewrite bool_decide_eq_true_2 by done|rewrite bool_decide_eq_false_2 by done];
    simpl; eexists _, _, _; (split; [reflexivity|]); simpl;
    (split; [done|]); (split; [done|]).
  - split; [lia|]. done.
  - split; [lia|]. by destruct m1, m2.
Qed.

Lemma MergeFetchResponses_unequal_step_witness :
  RequestStartTime Samples.coarse = RequestStartTime Samples.fine ∧
  StepTime Samples.coarse ≠ StepTime Samples.fine ∧
  ∃ m1' m2' e,
    MergeFetchResponses Samples.coarse Samples.fine "uuid" = Some (m1', m2', e)
    ∧ Errors.Errors e = [] ∧ Errors.HaveFatalErrors e = false
    ∧ StepTime Samples.fine < StepTime Samples.coarse
    ∧ m1' = {| Name := "cpu.load"; StartTime := 0; StopTime := 30; StepTime := 10;
               ConsolidationFunc := "max"; XFilesFactor := 0%float;
               Values := [5%float; 6%float; 7%float];
               AppliedFunctions := ["scale"];
               RequestStartTime := 0; RequestStopTime := 120;
               PathExpression := "cpu.*"; HighPrecisionTimestamps := false |}
    ∧ m2' = {| Name := "cpu.load"; StartTime := 0; StopTime := 120; StepTime := 60;
               ConsolidationFunc := "avg"; XFilesFactor := 0%float;
               Values := [1%float; 2%float];
               AppliedFunctions := [];
               RequestStartTime := 0; RequestStopTime := 30;
               PathExpression := "cpu.load"; HighPrecisionTimestamps := true |}.
Proof.
  split; [reflexivity|]. split; [discriminate|].
  apply (MergeFetchResponses_unequal_step Samples.coarse Samples.fine "uuid");
    [reflexivity|discriminate].
Defined.

(** C4 (as stated) fails: the one-minute record merged with the ten-second
    record, requested start equal and steps unequal, does not leave exactly
    the ten-second record's metadata in m1: m1 keeps its own requested stop
    time, path expression and timestamp precision. *)
Lemma MergeFetchResponses_unequal_step_keeps_request_stop :
  RequestStartTime Samples.coarse = RequestStartTime Samples.fine ∧
  StepTime Samples.coarse ≠ StepTime Samples.fine ∧
  StepTime Samples.fine < StepTime Samples.coarse ∧
  ∃ m1' m2' e,
    MergeFetchResponses Samples.coarse Samples.fine "uuid" = Some (m1', m2', e)
    ∧ RequestStopTime m1' = 120
    ∧ RequestStopTime Samples.fine = 30
    ∧ PathExpression m1' = "cpu.*"
    ∧ PathExpression Samples.fine = "cpu.load"
    ∧ HighPrecisionTimestamps m1' = false
    ∧ HighPrecisionTimestamps Samples.fine = true
    ∧ m1' ≠ Samples.fine.
Proof.
  split; [reflexivity|]. split; [discriminate|]. split; [reflexivity|].
  eexists _, _, _. split; [vm_compute; reflexivity|].
  do 6 (split; [reflexivity|]).
  intros Heq. apply (f_equal RequestStopTime) in Heq. discriminate Heq.
Qed.

(** What [swapFetchResponses] exchanges and what it leaves in place. *)
Lemma swapFetchResponses_fields (m1 m2 : FetchResponse.t) :
  let '(a, b) := swapFetchResponses m1 m2 in
  (Name a, StartTime a, StopTime a, StepTime a, ConsolidationFunc a,
   XFilesFactor a, Values a, AppliedFunctions a)
  = (Name m2, StartTime m2, StopTime m2, StepTime m2, ConsolidationFunc m2,
     XFilesFactor m2, Values m2, AppliedFunctions m2)
  ∧ (Name b, StartTime b, StopTime b, StepTime b, ConsolidationFunc b,
     XFilesFactor b, Values b, AppliedFunctions b)
    = (Name m1, StartTime m1, StopTime m1, StepTime m1, ConsolidationFunc m1,
       XFilesFactor m1, Values m1, AppliedFunctions m1)
  ∧ (RequestStartTime a, RequestStopTime a, PathExpression a, HighPrecisionTimestamps a)
    = (RequestStartTime m1, RequestStopTime m1, PathExpression m1,
       HighPrecisionTimestamps m1)
  ∧ (RequestStartTime b, RequestStopTime b, PathExpression b, HighPrecisionTimestamps b)
    = (RequestStartTime m2, RequestStopTime m2, PathExpression m2,
       HighPrecisionTimestamps m2).
Proof. done. Qed.

(** C5 (as amended) — In the equal-step merge, when the two records' start
    times are equal and the first record has fewer samples than the second,
    the swap exchanges the two records' name, start, stop and step time,
    consolidation function, x-files-factor, values and applied-function
    list, and nothing else: the result in m1 takes those fields from the
    record with the longer sample sequence, its values gap-filled from the
    shorter one, and keeps the first record's own requested start and stop
    time, path expression and timestamp precision; the second record ends
    with the first record's original eight fields and its own other four.
    When the start times differ the merge returns the start-time mismatch
    before the swap, and exchanges nothing. *)
Theorem mergeEqualStep_swap_fields (m1 m2 : FetchResponse.t) (uuid : string) :
  (length (Values m1) < length (Values m2))%nat →
  (StartTime m1 = StartTime m2 →
   mergeFetchResponsesWithEqualStepTimes m1 m2 uuid
   = Some ({| Name := Name m2; StartTime := StartTime m2;
              StopTime := StopTime m2; StepTime := StepTime m2;
              ConsolidationFunc := ConsolidationFunc m2;
              XFilesFactor := XFilesFactor m2;
              Values := gapFill (Values m2) (Values m1);
              AppliedFunctions := AppliedFunctions m2;
              RequestStartTime := RequestStartTime m1;
              RequestStopTime := RequestStopTime m1;
              PathExpression := PathExpression m1;
              HighPrecisionTimestamps := HighPrecisionTimestamps m1 |},
           {| Name := Name m1; StartTime := StartTime m1;
              StopTime := StopTime m1; StepTime := StepTime m1;
              ConsolidationFunc := ConsolidationFunc m1;
              XFilesFactor := XFilesFactor m1;
              Values := Values m1;
              AppliedFunctions := AppliedFunctions m1;
              RequestStartTime := RequestStartTime m2;
              RequestStopTime := RequestStopTime m2;
              PathExpression := PathExpression m2;
              HighPrecisionTimestamps := HighPrecisionTimestamps m2 |},
           None))
  ∧ (StartTime m1 ≠ StartTime m2 →
     mergeFetchResponsesWithEqualStepTimes m1 m2 uuid
     = Some (m1, m2, Some ErrResponseStartTimeMismatch)).
Proof.
  intros Hlen. split.
  - intros Hstart.
    rewrite mergeFetchResponsesWithEqualStepTimes_eq by done.
    by rewrite decide_True by done.
  - intros Hstart. unfold mergeFetchResponsesWithEqualStepTimes.
    by rewrite decide_True by done.
Qed.

Lemma mergeEqualStep_swap_fields_witness :
  (length (Values Samples.short) < length (Values Samples.long))%nat
  ∧ StartTime Samples.short = StartTime Samples.long
  ∧ mergeFetchResponsesWithEqualStepTimes Samples.short Samples.long "uuid"
    = Some ({| Name := "cpu.load"; StartTime := 0; StopTime := 20; StepTime := 10;
               ConsolidationFunc := "max"; XFilesFactor := 0%float;
               Values := [4%float; nan];
               AppliedFunctions := ["scale"];
               RequestStartTime := 0; RequestStopTime := 10;
               PathExpression := "cpu.*"; HighPrecisionTimestamps := false |},
            {| Name := "cpu.load"; StartTime := 0; StopTime := 10; StepTime := 10;
               ConsolidationFunc := "avg"; XFilesFactor := 0%float;
               Values := [nan];
               AppliedFunctions := [];
               RequestStartTime := 0; RequestStopTime := 20;
               PathExpression := "cpu.load"; HighPrecisionTimestamps := true |},
            None)
  ∧ (length (Values Samples.short) < length (Values FetchSamples.shifted))%nat
  ∧ StartTime Samples.short ≠ StartTime FetchSamples.shifted
  ∧ mergeFetchResponsesWithEqualStepTimes Samples.short FetchSamples.shifted "uuid"
    = Some (Samples.short, FetchSamples.shifted, Some ErrResponseStartTimeMismatch).
Proof.
  assert (Hl1 : (length (Values Samples.short) < length (Values Samples.long))%nat)
    by (simpl; lia).
  assert (Hl2 : (length (Values Samples.short)
                 < length (Values FetchSamples.shifted))%nat) by (simpl; lia).
  assert (Hs2 : StartTime Samples.short ≠ StartTime FetchSamples.shifted)
    by discriminate.
  split; [exact Hl1|]. split; [reflexivity|].
  split; [exact (proj1 (mergeEqualStep_swap_fields Samples.short Samples.long
                          "uuid" Hl1) eq_refl)|].
  split; [exact Hl2|]. split; [exact Hs2|].
  exact (proj2 (mergeEqualStep_swap_fields Samples.short FetchSamples.shifted
                  "uuid" Hl2) Hs2).
Defined.

(** C5 (as stated) fails twice.  With equal step and start and a shorter
    first record, the requested stop time of the result is the first
    record's, not that of the record with the longer sample sequence (and so
    are its path expression and timestamp precision).  With equal step, a
    shorter first record and different start times, nothing is exchanged at
    all: the merge returns the start-time mismatch and the result keeps
    every field of the shorter record. *)
Lemma mergeEqualStep_request_stop_not_swapped :
  (StepTime Samples.short = StepTime Samples.long
   ∧ (length (Values Samples.short) < length (Values Samples.long))%nat
   ∧ ∃ m1' m2',
       mergeFetchResponsesWithEqualStepTimes Samples.short Samples.long "uuid"
       = Some (m1', m2', None)
       ∧ RequestStopTime m1' = RequestStopTime Samples.short
       ∧ RequestStopTime m1' ≠ RequestStopTime Samples.long
       ∧ PathExpression m1' ≠ PathExpression Samples.long
       ∧ HighPrecisionTimestamps m1' ≠ HighPrecisionTimestamps Samples.long)
  ∧ (StepTime Samples.short = StepTime FetchSamples.shifted
     ∧ (length (Values Samples.short) < length (Values FetchSamples.shifted))%nat
     ∧ mergeFetchResponsesWithEqualStepTimes Samples.short FetchSamples.shifted "uuid"
       = Some (Samples.short, FetchSamples.shifted, Some ErrResponseStartTimeMismatch)
     ∧ StopTime Samples.short ≠ StopTime FetchSamples.shifted
     ∧ Values Samples.short ≠ Values FetchSamples.shifted).
Proof.
  split.
  - split; [reflexivity|]. split; [simpl; lia|].
    eexists _, _. split; [vm_compute; reflexivity|].
    split; [reflexivity|]. repeat split; discriminate.
  - split; [reflexivity|]. split; [simpl; lia|].
    split; [vm_compute; reflexivity|]. split; discriminate.
Qed.

(** C10 (as amended) — The reconciler mutates its second argument as well as
    its first: whenever a swap occurs in a successful merge (equal step and
    start with a strictly shorter first record, or a strictly larger step of
    the first record), the second record ends with the first record's
    original name, start, stop and step time, consolidation function,
    x-files-factor, values and applied-function list, while it keeps its own
    requested start and stop time (and its own path expression and timestamp
    precision, which the swap does not assign either). *)
Theorem MergeFetchResponses_mutates_donor (m1 m2 : FetchResponse.t) (uuid : string) :
  RequestStartTime m1 = RequestStartTime m2 →
  (StepTime m1 = StepTime m2 ∧ StartTime m1 = StartTime m2 ∧
   (length (Values m1) < length (Values m2))%nat)
  ∨ StepTime m1 > StepTime m2 →
  ∃ m1' m2',
    MergeFetchResponses m1 m2 uuid = Some (m1', m2', Errors.FromErr None)
    ∧ m2' = {| Name := Name m1; StartTime := StartTime m1;
               StopTime := StopTime m1; StepTime := StepTime m1;
               RequestStartTime := RequestStartTime m2;
               RequestStopTime := RequestStopTime m2;
               ConsolidationFunc := ConsolidationFunc m1;
               XFilesFactor := XFilesFactor m1;
               Values := Values m1;
               AppliedFunctions := AppliedFunctions m1;
               PathExpression := PathExpression m2;
               HighPrecisionTimestamps := HighPrecisionTimestamps m2 |}.
Proof.
  intros Hreq Hswap.
  unfold MergeFetchResponses, mergeFetchResponsesErr.
  rewrite decide_False by (intros H; by apply H).
  destruct Hswap as [(Hstep & Hstart & Hlen)|Hgt].
  - rewrite decide_True by done.
    rewrite mergeFetchResponsesWithEqualStepTimes_eq by done.
    rewrite decide_True by done. simpl. by eexists _, _.
  - rewrite decide_False by lia.
    unfold mergeFetchResponsesWithUnequalStepTimes.
    rewrite decide_True by done. simpl. by eexists _, _.
Qed.

Lemma MergeFetchResponses_mutates_donor_witness :
  RequestStartTime Samples.short = RequestStartTime Samples.long ∧
  ((StepTime Samples.short = StepTime Samples.long ∧
    StartTime Samples.short = StartTime Samples.long ∧
    (length (Values Samples.short) < length (Values Samples.long))%nat)
   ∨ StepTime Samples.short > StepTime Samples.long) ∧
  ∃ m1' m2',
    MergeFetchResponses Samples.short Samples.long "uuid"
    = Some (m1', m2', Errors.FromErr None)
    ∧ m2' = {| Name := "cpu.load"; StartTime := 0; StopTime := 10; StepTime := 10;
               RequestStartTime := 0; RequestStopTime := 20;
               ConsolidationFunc := "avg"; XFilesFactor := 0%float;
               Values := [nan]; AppliedFunctions := [];
               PathExpression := "cpu.load"; HighPrecisionTimestamps := true |}.
Proof.
  assert (Hswap :
    (StepTime Samples.short = StepTime Samples.long ∧
     StartTime Samples.short = StartTime Samples.long ∧
     (length (Values Samples.short) < length (Values Samples.long))%nat)
    ∨ StepTime Samples.short > StepTime Samples.long).
  { left. split; [reflexivity|]. split; [reflexivity|]. simpl. lia. }
  split; [reflexivity|]. split; [exact Hswap|].
  apply (MergeFetchResponses_mutates_donor Samples.short Samples.long "uuid");
    [reflexivity|exact Hswap].
Defined.

(** C10 (as stated) fails: after the one-minute record is merged with the
    ten-second record the swap has occurred, yet the second record does not
    hold the first record's original contents: its requested stop time is
    still its own. *)
Lemma MergeFetchResponses_donor_keeps_request_stop :
  StepTime Samples.coarse > StepTime Samples.fine ∧
  ∃ m1' m2' e,
    MergeFetchResponses Samples.coarse Samples.fine "uuid" = Some (m1', m2', e)
    ∧ Errors.Errors e = []
    ∧ RequestStopTime m2' = RequestStopTime Samples.fine
    ∧ m2' ≠ Samples.coarse.
Proof.
  split; [reflexivity|].
  eexists _, _, _. split; [vm_compute; reflexivity|].
  split; [reflexivity|]. split; [reflexivity|].
  intros Heq. apply (f_equal RequestStopTime) in Heq. discriminate Heq.
Qed.

(** ** The fetch aggregate *)

Module FetchMerge.
Import ServerFetchResponse.

Lemma indexSeries_bound (ms : list FetchResponse.t) :
  ∀ (i : nat) (metrics : gmap fetchResponseCoordinates nat),
    (∀ c j, metrics !! c = Some j → (j < i)%nat) →
    ∀ c j, indexSeries i ms metrics !! c = Some j → (j < i + length ms)%nat.
Proof.
  induction ms as [|m rest IH]; intros i metrics Hb c j; simpl.
  - intros Hc. apply Hb in Hc. lia.
  - intros Hc. apply IH in Hc; [lia|].
    intros c' j'. destruct (decide (c' = coordinates m)) as [->|Hne].
    + rewrite lookup_insert_eq. intros [= <-]. lia.
    + rewrite lookup_insert_ne by done. intros Hc'. apply Hb in Hc'. lia.
Qed.

(** The loop over second's series never indexes the receiver's series out of
    range. *)
Lemma mergeSeries_total (metrics : gmap fetchResponseCoordinates nat)
    (uuid : string) (ss : list FetchResponse.t) :
  ∀ fm : list FetchResponse.t,
    (∀ c j, metrics !! c = Some j → (j < length fm)%nat) →
    is_Some (mergeSeries metrics uuid ss fm).
Proof.
  induction ss as [|s rest IH]; intros fm Hb; simpl; [by eexists|].
  destruct (metrics !! coordinates s) as [j|] eqn:Hj.
  - destruct (lookup_lt_is_Some_2 fm j) as [f Hf]; [by eapply Hb|].
    rewrite Hf.
    destruct (MergeFetchResponses_total f s uuid) as [[[f' s'] e] ->].
    destruct (IH (<[j := f']> fm)) as [[fm' ss'] ->]; [|by eexists].
    intros c k Hc. rewrite length_insert. by eapply Hb.
  - destruct (IH (fm ++ [s])) as [[fm' ss'] ->]; [|by eexists].
    intros c k Hc. rewrite length_app. apply Hb in Hc. lia.
Qed.

Section Facts.
Context {stats : Type} `{StatsOps stats}.

(** Merge of fetch aggregates runs to completion when there are statistics
    to merge into and, for a non-nil second.Response, series to merge
    into. *)
Lemma fetch_Merge_total (first second : ServerFetchResponse.t stats) (uuid : string) :
  (is_Some (Stats second) → is_Some (Stats first)) →
  (is_Some (Response second) → is_Some (Response first)) →
  is_Some (Merge first second uuid).
Proof.
  intros Hstats Hresp. unfold Merge.
  destruct (mergeStats (Stats first) (Stats second)) as [st|] eqn:Hst.
  - destruct (Errors.HaveFatalErrors _); [by eexists|].
    destruct (Response second) as [r2|]; [|by eexists].
    destruct Hresp as [r1 ->]; [done|].
    destruct (mergeSeries_total (indexSeries 0 (Metrics r1) ∅) uuid
                (Metrics r2) (Metrics r1)) as [[fm ss] ->]; [|by eexists].
    intros c j Hc. apply indexSeries_bound in Hc; [done|].
    intros c' j'. by rewrite lookup_empty.
  - unfold mergeStats in Hst.
    destruct (Stats second) as [b|]; [|done].
    destruct (Stats first) as [a|]; [done|].
    by destruct Hstats as [? ?].
Qed.

(** C3 — If the error aggregate obtained by merging the two aggregates'
    errors has HaveFatalErrors set, Merge returns with the receiver's series
    data exactly as it was: nothing of second is appended or reconciled, no
    series of first is modified, and second is not modified either.  (The
    call runs to completion whenever the statistics of second can be merged
    into those of first.) *)
Theorem Merge_fatal_leaves_series (first second : ServerFetchResponse.t stats)
    (uuid : string) :
  Errors.HaveFatalErrors (mergeErr (Err first) (Err second)) = true →
  (is_Some (Stats second) → is_Some (Stats first)) →
  ∃ first',
    Merge first second uuid = Some (first', second)
    ∧ Response first' = Response first
    ∧ Err first' = Some (mergeErr (Err first) (Err second)).
Proof.
  intros Hfatal Hstats. unfold Merge.
  destruct (mergeStats (Stats first) (Stats second)) as [st|] eqn:Hst.
  - rewrite Hfatal. by eexists.
  - unfold mergeStats in Hst.
    destruct (Stats second) as [b|]; [|done].
    destruct (Stats first) as [a|]; [done|].
    by destruct Hstats as [? ?].
Qed.

(** Whatever the series are, the receiver's error aggregate after Merge is
    the merge of the two aggregates' errors: nothing the reconciler returns
    reaches it. *)
Lemma Merge_err_independent_of_series (first second first' second' :
    ServerFetchResponse.t stats) (uuid : string) :
  Merge first second uuid = Some (first', second') →
  Err first' = Some (mergeErr (Err first) (Err second)).
Proof.
  unfold Merge. intros Hm.
  destruct (mergeStats (Stats first) (Stats second)) as [st|]; [|done].
  destruct (Errors.HaveFatalErrors _); [by simplify_eq|].
  destruct (Response second) as [r2|]; [|by simplify_eq].
  destruct (Response first) as [r1|]; [|done].
  destruct (mergeSeries _ _ _ _) as [[fm ss]|]; [|done].
  by simplify_eq.
Qed.

End Facts.

Lemma Merge_fatal_leaves_series_witness :
  Errors.HaveFatalErrors
    (mergeErr (Err FetchSamples.running) (Err FetchSamples.poisoned)) = true ∧
  (is_Some (Stats FetchSamples.poisoned) → is_Some (Stats FetchSamples.running)) ∧
  ∃ first',
    Merge FetchSamples.running FetchSamples.poisoned "uuid"
    = Some (first', FetchSamples.poisoned)
    ∧ Response first' = Response FetchSamples.running
    ∧ Err first' = Some (mergeErr (Err FetchSamples.running) (Err FetchSamples.poisoned)).
Proof.
  assert (Hstats : is_Some (Stats FetchSamples.poisoned) →
                   is_Some (Stats FetchSamples.running)).
  { intros _. exists 1. reflexivity. }
  split; [reflexivity|]. split; [exact Hstats|].
  apply (Merge_fatal_leaves_series FetchSamples.running FetchSamples.poisoned "uuid");
    [reflexivity|exact Hstats].
Defined.

(** C2 — evaluation at the failing input.  The receiver holds one series; the
    partial response holds a series with the same lookup key whose data
    starts one step later, and a series the receiver lacks.  The reconciler
    returns the start-time mismatch for the matched pair, the pair is not
    combined and the other series is appended, but the receiver's error
    aggregate is left without any error and without the fatal flag: the
    returned aggregate is dropped. *)
Theorem Merge_drops_reconciler_error :
  coordinates Samples.a = coordinates FetchSamples.shifted
  ∧ MergeFetchResponses Samples.a FetchSamples.shifted "uuid"
    = Some (Samples.a, FetchSamples.shifted,
            Errors.FromErr (Some ErrResponseStartTimeMismatch))
  ∧ Errors.Errors (Errors.FromErr (Some ErrResponseStartTimeMismatch))
    = [ErrResponseStartTimeMismatch]
  ∧ ∃ first' second',
      Merge FetchSamples.running FetchSamples.partial "uuid" = Some (first', second')
      ∧ Response first' = Some {| Metrics := [Samples.a; FetchSamples.other] |}
      ∧ Err first' = Some {| Errors.HaveFatalErrors := false; Errors.Errors := [] |}.
Proof.
  split; [reflexivity|]. split; [vm_compute; reflexivity|].
  split; [reflexivity|].
  eexists _, _. split; [vm_compute; reflexivity|]. split; reflexivity.
Qed.

End FetchMerge.

(** ** The tag aggregate *)

Module TagMerge.
Import ServerTagResponse.

(** The loop appends, in order, the names of [l2] that are not in [firstMap];
    a nil slice stays nil when nothing is appended. *)
Lemma appendMissing_filter (firstMap : gset string) (l2 : list string) :
  ∀ resp : option (list string),
    appendMissing firstMap resp l2 =
    match filter (fun v => v ∉ firstMap) l2 with
    | [] => resp
    | novel => Some (default [] resp ++ novel)
    end.
Proof.
  induction l2 as [|v rest IH]; intros resp; simpl; [done|].
  rewrite IH. rewrite filter_cons.
  destruct (decide (v ∈ firstMap)) as [Hin|Hout].
  - by rewrite decide_False by (intros Hn; by apply Hn).
  - rewrite decide_True by done. simpl.
    destruct (filter _ rest) as [|w novel]; [done|].
    by rewrite <- app_assoc.
Qed.

(** The names of a receiver after Merge with a non-nil list: its own names,
    then the names of second that it lacked. *)
Lemma Merge_names (first second : ServerTagResponse.t) (l1 l2 : list string) :
  Response first = Some l1 → Response second = Some l2 →
  Response (Merge first second).1 = Some (l1 ++ filter (fun v => v ∉ l1) l2).
Proof.
  intros H1 H2. unfold Merge. rewrite H1, H2. simpl.
  rewrite appendMissing_filter. simpl.
  rewrite (list_filter_iff (fun v => v ∉ (list_to_set l1 : gset string))
                           (fun v => v ∉ l1)) by set_solver.
  destruct (filter _ l2); [by rewrite app_nil_r|done].
Qed.

(** When second has no repeated name the result is the duplicate-free,
    order-preserving union. *)
Lemma Merge_NoDup (first second : ServerTagResponse.t) (l1 l2 : list string) :
  Response first = Some l1 → Response second = Some l2 →
  NoDup l1 → NoDup l2 →
  ∃ l, Response (Merge first second).1 = Some l ∧ NoDup l
       ∧ ∀ v, v ∈ l ↔ v ∈ l1 ∨ v ∈ l2.
Proof.
  intros H1 H2 Hnd1 Hnd2. eexists. split; [by apply Merge_names|]. split.
  - apply NoDup_app. split; [done|]. split.
    + intros v Hv [Hnv _]%list_elem_of_filter. by apply Hnv.
    + by apply NoDup_filter.
  - intros v. rewrite elem_of_app, list_elem_of_filter.
    destruct (decide (v ∈ l1)); tauto.
Qed.

(** The spec's example: ["a","b"] merged with ["b","c"] is ["a","b","c"]. *)
Example tag_Merge_spec_example :
  Response (Merge {| Server := ""; Response := Some ["a"; "b"]; Err := None |}
                  {| Server := ""; Response := Some ["b"; "c"]; Err := None |}).1
  = Some ["a"; "b"; "c"].
Proof. reflexivity. Qed.

(** C7 — evaluation at the failing input.  The receiver's list ["a"] is
    duplicate-free and second's list ["b","b"] is non-nil, yet the merged
    list is ["a","b","b"]: the name "b" appears twice, because the
    membership set is not extended when a name is appended. *)
Theorem Merge_repeats_new_name :
  let first := {| Server := ""; Response := Some ["a"]; Err := None |} in
  let second := {| Server := ""; Response := Some ["b"; "b"]; Err := None |} in
  NoDup ["a"]
  ∧ Response (Merge first second).1 = Some ["a"; "b"; "b"]
  ∧ ¬ NoDup ["a"; "b"; "b"].
Proof.
  cbv zeta. split; [apply NoDup_singleton|]. split; [reflexivity|].
  intros Hnd. apply NoDup_cons in Hnd as [_ Hnd].
  apply NoDup_cons in Hnd as [Hb _]. apply Hb. left.
Qed.

End TagMerge.

(** ** The info aggregate *)

Module InfoMerge.
Import ServerInfoResponse.

Section Facts.
Context {stats : Type} `{StatsOps stats} {MultiMetricsInfoResponse : Type}.

Local Abbreviation InfoMap := (gmap string MultiMetricsInfoResponse).
Local Abbreviation InfoResponse := (ServerInfoResponse.t stats MultiMetricsInfoResponse).

(** With an allocated receiver map the assignments never panic. *)
Lemma rangeAssign_Some (l : list (string * MultiMetricsInfoResponse)) :
  ∀ m : InfoMap,
    rangeAssign l (Some {| Info := Some m |})
    = Some (Some {| Info := Some (foldl (fun m kv => <[kv.1 := kv.2]> m) m l) |}).
Proof.
  induction l as [|[k v] rest IH]; intros m; simpl; [done|].
  by rewrite IH.
Qed.

(** Assigning the entries of a map, in any order that lists each key once,
    overrides exactly the keys of that map. *)
Lemma assign_lookup (l : list (string * MultiMetricsInfoResponse)) :
  NoDup l.*1 →
  ∀ (m : InfoMap) (k : string),
    foldl (fun m kv => <[kv.1 := kv.2]> m) m l !! k
    = match (list_to_map l : InfoMap) !! k with
      | Some v => Some v
      | None => m !! k
      end.
Proof.
  induction l as [|[k0 v0] rest IH]; intros Hnd m k; simpl; [done|].
  apply NoDup_cons in Hnd as [Hk0 Hnd]. rewrite IH by done.
  destruct (decide (k = k0)) as [->|Hne].
  - rewrite lookup_insert_eq.
    rewrite (not_elem_of_list_to_map_1 rest k0) by done.
    by rewrite lookup_insert_eq.
  - rewrite (lookup_insert_ne (list_to_map rest)) by done.
    destruct (list_to_map rest !! k); [done|].
    by rewrite lookup_insert_ne.
Qed.

(** The order in which Go ranges over second's map does not matter: any
    listing of its entries gives the same assignments as [map_to_list]. *)
Lemma assign_any_order (l : list (string * MultiMetricsInfoResponse))
    (m2 m : InfoMap) :
  l ≡ₚ map_to_list m2 →
  foldl (fun m kv => <[kv.1 := kv.2]> m) m l
  = foldl (fun m kv => <[kv.1 := kv.2]> m) m (map_to_list m2).
Proof.
  intros Hperm. apply map_eq. intros k.
  assert (Hnd : NoDup l.*1).
  { rewrite Hperm. apply NoDup_fst_map_to_list. }
  rewrite !assign_lookup by (done || apply NoDup_fst_map_to_list).
  rewrite list_to_map_to_list.
  assert (Hl : (list_to_map l : InfoMap) = m2).
  { rewrite <- (list_to_map_to_list m2). by apply list_to_map_proper. }
  by rewrite Hl.
Qed.

(** C8 — Merge of info aggregates, for a run that does not dereference nil
    (statistics to merge into, and an allocated map to assign into, are
    present when second brings some).  Stats and the error aggregates are
    merged in every case.  With a non-nil second.Response the receiver's map
    gives, for every key of second's map, second's value, and for every
    other key the value it had; with a nil second.Response the receiver's
    response is unchanged. *)
Theorem Merge_last_write_wins (first second : InfoResponse) :
  (is_Some (Stats second) → is_Some (Stats first)) →
  (is_Some (Response second) →
   ∃ m1 : InfoMap, Response first = Some {| Info := Some m1 |}) →
  ∃ first' ret,
    Merge first second = Some (first', ret)
    ∧ mergeStats (Stats first) (Stats second) = Some (Stats first')
    ∧ Err first' = Some (mergeErr (Err first) (Err second))
    ∧ match Response second with
      | None => Response first' = Response first
      | Some r2 =>
          ∃ m1 m1' : InfoMap,
            Response first = Some {| Info := Some m1 |}
            ∧ Response first' = Some {| Info := Some m1' |}
            ∧ ∀ k, m1' !! k =
                   match entries r2 !! k with
                   | Some v => Some v
                   | None => m1 !! k
                   end
      end.
Proof.
  intros Hstats Hresp. unfold Merge.
  destruct (mergeStats (Stats first) (Stats second)) as [st|] eqn:Hst.
  - destruct (Response second) as [r2|].
    + destruct Hresp as [m1 Hm1]; [done|]. rewrite Hm1, rangeAssign_Some.
      eexists _, _. split; [reflexivity|]. simpl. do 2 (split; [done|]).
      exists m1. eexists. split; [done|]. split; [done|]. intros k.
      rewrite assign_lookup by apply NoDup_fst_map_to_list.
      by rewrite list_to_map_to_list.
    + eexists _, _. split; [reflexivity|]. by simpl.
  - unfold mergeStats in Hst.
    destruct (Stats second) as [b|]; [|done].
    destruct (Stats first) as [a|]; [done|].
    by destruct Hstats as [? ?].
Qed.

(** Merge of info aggregates runs to completion when there are statistics to
    merge into and an allocated map to assign into; it leaves the merged
    error aggregate in the receiver and returns it only for a nil
    second.Response. *)
Lemma info_Merge_returns (first second : InfoResponse) :
  (is_Some (Stats second) → is_Some (Stats first)) →
  (is_Some (Response second) →
   ∃ m1 : InfoMap, Response first = Some {| Info := Some m1 |}) →
  ∃ first',
    Merge first second
    = Some (first', match Response second with
                    | None => Some (mergeErr (Err first) (Err second))
                    | Some _ => None
                    end)
    ∧ Err first' = Some (mergeErr (Err first) (Err second)).
Proof.
  intros Hstats Hresp. unfold Merge.
  destruct (mergeStats (Stats first) (Stats second)) as [st|] eqn:Hst.
  - destruct (Response second) as [r2|]; [|by eexists].
    destruct Hresp as [m1 Hm1]; [done|]. rewrite Hm1, rangeAssign_Some.
    by eexists.
  - unfold mergeStats in Hst.
    destruct (Stats second) as [b|]; [|done].
    destruct (Stats first) as [a|]; [done|].
    by destruct Hstats as [? ?].
Qed.

End Facts.

Lemma Merge_last_write_wins_witness :
  (is_Some (Stats InfoSamples.partial) → is_Some (Stats InfoSamples.running)) ∧
  (is_Some (Response InfoSamples.partial) →
   ∃ m1 : gmap string Z, Response InfoSamples.running = Some {| Info := Some m1 |}) ∧
  ∃ first' ret,
    Merge InfoSamples.running InfoSamples.partial = Some (first', ret)
    ∧ mergeStats (Stats InfoSamples.running) (Stats InfoSamples.partial)
      = Some (Stats first')
    ∧ Err first' = Some (mergeErr (Err InfoSamples.running) (Err InfoSamples.partial))
    ∧ ∃ m1 m1' : gmap string Z,
        Response InfoSamples.running = Some {| Info := Some m1 |}
        ∧ Response first' = Some {| Info := Some m1' |}
        ∧ ∀ k, m1' !! k =
               match ({[ "m1" := 300 ]} : gmap string Z) !! k with
               | Some v => Some v
               | None => m1 !! k
               end.
Proof.
  assert (Hs : is_Some (Stats InfoSamples.partial) →
               is_Some (Stats InfoSamples.running)).
  { intros _. exists 1. reflexivity. }
  assert (Hr : is_Some (Response InfoSamples.partial) →
               ∃ m1 : gmap string Z,
                 Response InfoSamples.running = Some {| Info := Some m1 |}).
  { intros _. eexists. reflexivity. }
  split; [exact Hs|]. split; [exact Hr|].
  exact (Merge_last_write_wins InfoSamples.running InfoSamples.partial Hs Hr).
Defined.

(** The spec's example: the later value of "m1" wins and "m0" is kept. *)
Example info_Merge_spec_example :
  ∃ first' m1', Merge InfoSamples.running InfoSamples.partial = Some (first', None)
    ∧ Response first' = Some {| Info := Some m1' |}
    ∧ m1' !! "m1" = Some 300 ∧ m1' !! "m0" = Some 10.
Proof. eexists _, _. split; [reflexivity|]. split; [reflexivity|]. split; reflexivity. Qed.

End InfoMerge.

(** ** The find aggregate *)

Module FindMerge.
Import ServerFindResponse FindSpec.

Lemma addMatches_nil (f : GlobResponse) : addMatches f [] = f.
Proof. destruct f. unfold addMatches. simpl. by rewrite app_nil_r. Qed.

Lemma addMatches_app (f : GlobResponse) (xs ys : list GlobMatch) :
  addMatches (addMatches f xs) ys = addMatches f (xs ++ ys).
Proof. unfold addMatches. simpl. by rewrite app_assoc. Qed.

(** *** The index built by the first loop *)

Lemma lastIndex_None (n : string) (ms : list GlobResponse) :
  lastIndex n ms = None ↔ n ∉ names ms.
Proof.
  induction ms as [|m rest IH]; simpl.
  - split; [intros _; apply not_elem_of_nil|done].
  - unfold names in *. rewrite not_elem_of_cons.
    destruct (lastIndex n rest) as [j|].
    + split; [done|]. intros [_ Hn]. by apply IH in Hn.
    + destruct (decide (Name m = n)) as [Heq|Hne].
      * split; [done|]. intros [Hn _]. by destruct Hn.
      * split; [|done]. intros _. split; [done|]. by apply IH.
Qed.

Lemma lastIndex_Some (n : string) (ms : list GlobResponse) (j : nat) :
  lastIndex n ms = Some j → ∃ f, ms !! j = Some f ∧ Name f = n.
Proof.
  revert j. induction ms as [|m rest IH]; intros j; simpl; [done|].
  destruct (lastIndex n rest) as [j'|].
  - intros [= <-]. simpl. by apply IH.
  - destruct (decide (Name m = n)); [|done]. intros [= <-]. by exists m.
Qed.

Lemma indexMetrics_lookup (ms : list GlobResponse) :
  ∀ (i : nat) (seenMetrics : gmap string nat) (seenMatches : gset string) (n : string),
    (indexMetrics i ms seenMetrics seenMatches).1 !! n
    = match lastIndex n ms with
      | Some j => Some (i + j)%nat
      | None => seenMetrics !! n
      end.
Proof.
  induction ms as [|m rest IH]; intros i sm K n; simpl; [done|].
  rewrite IH. destruct (lastIndex n rest) as [j|].
  - f_equal. lia.
  - destruct (decide (Name m = n)) as [<-|Hne].
    + rewrite lookup_insert_eq. f_equal. lia.
    + by rewrite lookup_insert_ne.
Qed.

Lemma foldl_seen (n : string) (mms : list GlobMatch) :
  ∀ K : gset string,
    foldl (fun seen mm => {[matchKey n (Path mm)]} ∪ seen) K mms
    = K ∪ list_to_set ((fun mm => matchKey n (Path mm)) <$> mms).
Proof.
  induction mms as [|mm rest IH]; intros K; simpl.
  - set_solver.
  - rewrite IH. set_solver.
Qed.

Lemma indexMetrics_seen (ms : list GlobResponse) :
  ∀ (i : nat) (seenMetrics : gmap string nat) (seenMatches : gset string),
    (indexMetrics i ms seenMetrics seenMatches).2 = seenMatches ∪ seenKeys ms.
Proof.
  unfold seenKeys.
  induction ms as [|m rest IH]; intros i sm K; simpl.
  - set_solver.
  - rewrite IH, foldl_seen. rewrite list_to_set_app_L. set_solver.
Qed.

(** *** The inner loop *)

Lemma novelMatches_app (c1 c2 : list (string * GlobMatch)) :
  ∀ seen : gset string,
    novelMatches seen (c1 ++ c2)
    = novelMatches seen c1
      ++ novelMatches (seen ∪ list_to_set (candKey <$> c1)) c2.
Proof.
  induction c1 as [|c rest IH]; intros seen; simpl.
  - f_equal. set_solver.
  - destruct (decide (candKey c ∈ seen)) as [Hin|Hout]; rewrite IH.
    + do 2 f_equal. set_solver.
    + simpl. do 3 f_equal. set_solver.
Qed.

Lemma novelMatches_elem_of (cands : list (string * GlobMatch)) :
  ∀ (seen : gset string) (c : string * GlobMatch),
    c ∈ novelMatches seen cands → c ∈ cands.
Proof.
  induction cands as [|c0 rest IH]; intros seen c; simpl; [done|].
  destruct (decide (candKey c0 ∈ seen)).
  - intros Hc. right. by eapply IH.
  - intros [->|Hc]%elem_of_cons; [left|right]. by eapply IH.
Qed.

Lemma mergeMatches_spec (i : nat) (mms : list GlobMatch) :
  ∀ (metrics : list GlobResponse) (K : gset string) (f : GlobResponse),
    metrics !! i = Some f →
    mergeMatches i mms metrics K
    = Some (<[i := addMatches f (snd <$> novelMatches K (pair (Name f) <$> mms))]> metrics,
            K ∪ list_to_set (candKey <$> (pair (Name f) <$> mms))).
Proof.
  induction mms as [|mm rest IH]; intros metrics K f Hf; simpl.
  - rewrite addMatches_nil, list_insert_id by done. do 2 f_equal. set_solver.
  - rewrite Hf. change (matchKey (Name f) (Path mm)) with (candKey (Name f, mm)).
    destruct (decide (candKey (Name f, mm) ∈ K)) as [Hin|Hout].
    + rewrite (IH metrics K f) by done. do 2 f_equal. set_solver.
    + assert (Hi : (i < length metrics)%nat) by (by eapply lookup_lt_Some).
      rewrite (IH _ _ (addMatches f [mm]))
        by (by apply list_lookup_insert_eq).
      rewrite list_insert_insert_eq, addMatches_app. simpl.
      do 2 f_equal. set_solver.
Qed.

(** *** The outer loop *)

Lemma filter_keep_all {A : Type} (P : A → Prop) `{∀ x, Decision (P x)} (l : list A) :
  (∀ x, x ∈ l → P x) → filter P l = l.
Proof.
  induction l as [|x rest IH]; intros Hall; [done|].
  rewrite filter_cons, decide_True by (apply Hall; left).
  f_equal. apply IH. intros y Hy. apply Hall. by right.
Qed.

Lemma filter_drop_all {A : Type} (P : A → Prop) `{∀ x, Decision (P x)} (l : list A) :
  (∀ x, x ∈ l → ¬ P x) → filter P l = [].
Proof.
  induction l as [|x rest IH]; intros Hall; [done|].
  rewrite filter_cons, decide_False by (apply Hall; left).
  apply IH. intros y Hy. apply Hall. by right.
Qed.

(** Filing the matches kept for one name, then those kept later, is filing
    them all at once. *)
Lemma fileMatches_step (F M : list GlobResponse) (i : nat) (f : GlobResponse)
    (n : string) (nov1 nov2 : list (string * GlobMatch)) :
  lastIndex n F = Some i →
  M !! i = Some f →
  (∀ c, c ∈ nov1 → c.1 = n) →
  fileMatches F nov2 (<[i := addMatches f (snd <$> nov1)]> M)
  = fileMatches F (nov1 ++ nov2) M.
Proof.
  intros Hn Hf Hnov. apply list_eq. intros j. unfold fileMatches.
  rewrite !list_lookup_imap, filter_app, fmap_app.
  destruct (decide (j = i)) as [->|Hne].
  - rewrite list_lookup_insert_eq by (by eapply lookup_lt_Some).
    rewrite Hf. simpl. rewrite addMatches_app.
    rewrite (filter_keep_all _ nov1); [done|].
    intros c Hc. by rewrite (Hnov c Hc).
  - rewrite list_lookup_insert_ne by done.
    rewrite (filter_drop_all _ nov1); [done|].
    intros c Hc. rewrite (Hnov c Hc), Hn. congruence.
Qed.

Lemma fileMatches_nil (F M : list GlobResponse) : fileMatches F [] M = M.
Proof.
  apply list_eq. intros j. unfold fileMatches. rewrite list_lookup_imap.
  destruct (M !! j) as [f|]; simpl; [|done].
  by rewrite addMatches_nil.
Qed.

Lemma names_insert_addMatches (M : list GlobResponse) (i : nat) (f : GlobResponse)
    (extra : list GlobMatch) :
  M !! i = Some f → names (<[i := addMatches f extra]> M) = names M.
Proof.
  intros Hf. unfold names. rewrite list_fmap_insert. simpl.
  apply list_insert_id. by rewrite list_lookup_fmap, Hf.
Qed.

(** The loop over second's entries, started on the receiver's entries [M0]
    followed by the entries appended so far. *)
Lemma mergeMetrics_spec (F : list GlobResponse) (seenMetrics : gmap string nat) :
  (∀ n, seenMetrics !! n = lastIndex n F) →
  ∀ (S M0 A : list GlobResponse) (K : gset string),
    names M0 = names F →
    ∃ K',
      mergeMetrics seenMetrics S (M0 ++ A) K
      = Some (fileMatches F (novelMatches K (candidates F S)) M0
              ++ A ++ appendedEntries F S, K').
Proof.
  intros Hsm S. induction S as [|m rest IH]; intros M0 A K Hnames; simpl.
  - exists K. unfold candidates, appendedEntries. simpl.
    by rewrite fileMatches_nil, app_nil_r.
  - rewrite Hsm. unfold candidates, appendedEntries. rewrite !filter_cons.
    destruct (lastIndex (Name m) F) as [i|] eqn:Hi.
    + assert (Hin : Name m ∈ names F).
      { destruct (decide (Name m ∈ names F)) as [|Hout]; [done|].
        apply lastIndex_None in Hout. congruence. }
      rewrite decide_True by done.
      rewrite decide_False by (intros Hn; by apply Hn).
      destruct (lastIndex_Some _ _ _ Hi) as (f0 & Hf0 & Hname0).
      assert (Hf : ∃ f, M0 !! i = Some f ∧ Name f = Name m).
      { assert (Hl : names M0 !! i = Some (Name m)).
        { rewrite Hnames. unfold names. by rewrite list_lookup_fmap, Hf0, <- Hname0. }
        unfold names in Hl. rewrite list_lookup_fmap in Hl.
        destruct (M0 !! i) as [f|]; [|done]. exists f. split; [done|].
        by injection Hl. }
      destruct Hf as (f & Hf & Hname).
      rewrite (mergeMatches_spec i (Matches m) (M0 ++ A) K f)
        by (by apply lookup_app_l_Some).
      rewrite insert_app_l by (by eapply lookup_lt_Some).
      rewrite Hname.
      set (c1 := pair (Name m) <$> Matches m).
      destruct (IH (<[i := addMatches f (snd <$> novelMatches K c1)]> M0) A
                   (K ∪ list_to_set (candKey <$> c1))) as [K' HK'].
      { rewrite names_insert_addMatches; done. }
      exists K'. rewrite HK'. do 3 f_equal.
      rewrite bind_cons. fold c1. rewrite novelMatches_app.
      apply fileMatches_step with (n := Name m); [done|done|].
      intros c Hc%novelMatches_elem_of. unfold c1 in Hc.
      apply list_elem_of_fmap in Hc as (mm & -> & _). done.
    + assert (Hout : Name m ∉ names F) by (by apply lastIndex_None).
      rewrite decide_False by (intros Hn; by apply Hout).
      rewrite decide_True by done.
      rewrite <- app_assoc.
      destruct (IH M0 (A ++ [m]) K Hnames) as [K' HK'].
      exists K'. rewrite HK'. by rewrite <- !app_assoc.
Qed.

Section Facts.
Context {stats : Type} `{StatsOps stats}.

(** The find merge in closed form, for a run that does not dereference nil,
    with non-nil second.Response.  The receiver ends with
    its own entries, in their order, each keeping its name and its own
    matches as a prefix, followed by the entries of second whose name it
    did not have, whole and in second's order.  The matches of second's
    entries under a name the receiver has are filed, in second's order,
    behind the matches of the receiver's (last) entry of that name, except
    those that are dropped; and a match is dropped if and only if the string
    name + "." + path formed from its pair equals that string of a match the
    receiver already had or of an earlier such match of second. *)
Theorem Merge_two_level_union (first second : ServerFindResponse.t stats)
    (r1 r2 : MultiGlobResponse) :
  Response first = Some r1 →
  Response second = Some r2 →
  (is_Some (Stats second) → is_Some (Stats first)) →
  let cands := candidates (Metrics r1) (Metrics r2) in
  let kept := novelMatches (seenKeys (Metrics r1)) cands in
  ∃ first',
    Merge first second = Some (first', None)
    ∧ Response first'
      = Some {| Metrics := mergedEntries (Metrics r1) kept
                           ++ appendedEntries (Metrics r1) (Metrics r2) |}
    ∧ (∀ pre c post, cands = pre ++ c :: post →
         kept = novelMatches (seenKeys (Metrics r1)) pre
                ++ (if decide (candKey c ∈ seenKeys (Metrics r1)
                               ∨ candKey c ∈ candKey <$> pre)
                    then [] else [c])
                ++ novelMatches
                     (seenKeys (Metrics r1) ∪ list_to_set (candKey <$> (pre ++ [c])))
                     post).
Proof.
  intros Hr1 Hr2 Hstats. cbv zeta. unfold Merge.
  destruct (mergeStats (Stats first) (Stats second)) as [st|] eqn:Hst.
  - rewrite Hr1, Hr2.
    destruct (indexMetrics 0 (Metrics r1) ∅ ∅) as [sm K0] eqn:Hidx.
    assert (Hsm : ∀ n, sm !! n = lastIndex n (Metrics r1)).
    { intros n. change sm with (sm, K0).1. rewrite <- Hidx, indexMetrics_lookup.
      by destruct (lastIndex n (Metrics r1)). }
    assert (HK0 : K0 = seenKeys (Metrics r1)).
    { change K0 with (sm, K0).2. rewrite <- Hidx, indexMetrics_seen. set_solver. }
    destruct (mergeMetrics_spec (Metrics r1) sm Hsm (Metrics r2) (Metrics r1) [] K0)
      as [K' HK']; [done|].
    rewrite app_nil_r in HK'. rewrite HK'. subst K0.
    eexists. split; [reflexivity|]. split; [done|].
    intros pre c post ->.
    rewrite novelMatches_app. f_equal. simpl.
    destruct (decide (candKey c ∈ seenKeys (Metrics r1) ∪ list_to_set (candKey <$> pre)))
      as [Hin|Hout].
    + rewrite decide_True by set_solver. simpl. f_equal. set_solver.
    + rewrite decide_False by set_solver. simpl. do 2 f_equal. set_solver.
  - unfold mergeStats in Hst.
    destruct (Stats second) as [b|]; [|done].
    destruct (Stats first) as [a|]; [done|].
    by destruct Hstats as [? ?].
Qed.

(** Merge of find aggregates runs to completion when there are statistics to
    merge into and a response to merge into; it leaves the merged error
    aggregate in the receiver and returns it only for a nil second.Response. *)
Lemma find_Merge_returns (first second : ServerFindResponse.t stats) :
  (is_Some (Stats second) → is_Some (Stats first)) →
  (is_Some (Response second) → is_Some (Response first)) →
  ∃ first',
    Merge first second
    = Some (first', match Response second with
                    | None => Some (mergeErr (Err first) (Err second))
                    | Some _ => None
                    end)
    ∧ Err first' = Some (mergeErr (Err first) (Err second)).
Proof.
  intros Hstats Hresp. unfold Merge.
  destruct (mergeStats (Stats first) (Stats second)) as [st|] eqn:Hst.
  - destruct (Response second) as [r2|]; [|by eexists].
    destruct Hresp as [r1 Hr1]; [done|]. rewrite Hr1.
    destruct (indexMetrics 0 (Metrics r1) ∅ ∅) as [sm K0] eqn:Hidx.
    assert (Hsm : ∀ n, sm !! n = lastIndex n (Metrics r1)).
    { intros n. change sm with (sm, K0).1. rewrite <- Hidx, indexMetrics_lookup.
      by destruct (lastIndex n (Metrics r1)). }
    destruct (mergeMetrics_spec (Metrics r1) sm Hsm (Metrics r2) (Metrics r1) [] K0)
      as [K' HK']; [done|].
    rewrite app_nil_r in HK'. rewrite HK'. by eexists.
  - unfold mergeStats in Hst.
    destruct (Stats second) as [b|]; [|done].
    destruct (Stats first) as [a|]; [done|].
    by destruct Hstats as [? ?].
Qed.

End Facts.

Lemma Merge_two_level_union_witness :
  Response FindSamples.running
  = Some {| Metrics :=
      [ {| Name := "a.b"; Matches := [ {| Path := "c"; IsLeaf := true |} ] |};
        {| Name := "a"; Matches := [] |} ] |} ∧
  Response FindSamples.partial
  = Some {| Metrics :=
      [ {| Name := "a"; Matches := [ {| Path := "b.c"; IsLeaf := true |};
                                     {| Path := "d"; IsLeaf := true |} ] |};
        {| Name := "z"; Matches := [ {| Path := "y"; IsLeaf := false |} ] |} ] |} ∧
  (is_Some (Stats FindSamples.partial) → is_Some (Stats FindSamples.running)) ∧
  ∃ first',
    Merge FindSamples.running FindSamples.partial = Some (first', None)
    ∧ Response first'
      = Some {| Metrics :=
          [ {| Name := "a.b"; Matches := [ {| Path := "c"; IsLeaf := true |} ] |};
            {| Name := "a"; Matches := [ {| Path := "d"; IsLeaf := true |} ] |};
            {| Name := "z"; Matches := [ {| Path := "y"; IsLeaf := false |} ] |} ] |}.
Proof.
  assert (Hs : is_Some (Stats FindSamples.partial) →
               is_Some (Stats FindSamples.running)).
  { intros _. exists 1. reflexivity. }
  split; [reflexivity|]. split; [reflexivity|]. split; [exact Hs|].
  destruct (Merge_two_level_union FindSamples.running FindSamples.partial
              _ _ eq_refl eq_refl Hs) as (first' & Hm & Hr & _).
  exists first'. split; [exact Hm|]. rewrite Hr. vm_compute. reflexivity.
Defined.

(** C6 — evaluation at the failing inputs.  First input: the receiver holds
    the pair ("a.b", "c") and an entry "a" without matches, and second's
    entry "a" brings the match "b.c".  The pair ("a", "b.c") is not present
    in the receiver and nothing of second was seen before it, yet the match
    is dropped, because both pairs form the key "a.b.c".  Second input:
    second lists the name "z", which the receiver lacks, twice with the same
    match.  Both entries are appended whole: the index of names is not
    extended when an entry is appended, so the second "z" is not merged into
    the first and its match, already present under (z, y), is not dropped. *)
Theorem Merge_dedup_misses :
  (∃ first',
     Merge FindSamples.running FindSamples.partial = Some (first', None)
     ∧ Response first'
       = Some {| Metrics :=
           [ {| Name := "a.b"; Matches := [ {| Path := "c"; IsLeaf := true |} ] |};
             {| Name := "a"; Matches := [ {| Path := "d"; IsLeaf := true |} ] |};
             {| Name := "z"; Matches := [ {| Path := "y"; IsLeaf := false |} ] |} ] |}
     ∧ (∀ r1, Response FindSamples.running = Some r1 →
          ("a", "b.c") ∉
          (Metrics r1 ≫= fun f => (fun mm => (Name f, Path mm)) <$> Matches f))
     ∧ matchKey "a" "b.c" = matchKey "a.b" "c")
  ∧ (∃ first',
       Merge FindSamples.running FindSamples.repeated = Some (first', None)
       ∧ Response first'
         = Some {| Metrics :=
             [ {| Name := "a.b"; Matches := [ {| Path := "c"; IsLeaf := true |} ] |};
               {| Name := "a"; Matches := [] |};
               {| Name := "z"; Matches := [ {| Path := "y"; IsLeaf := false |} ] |};
               {| Name := "z"; Matches := [ {| Path := "y"; IsLeaf := false |} ] |} ] |}).
Proof.
  split.
  - eexists. split; [vm_compute; reflexivity|]. split; [reflexivity|].
    split; [|reflexivity].
    intros r1 [= <-]. simpl. intros Hin.
    apply list_elem_of_singleton in Hin. discriminate Hin.
  - eexists. split; [vm_compute; reflexivity|]. reflexivity.
Qed.

End FindMerge.

(** ** What the tag, info and find merges return *)

(** C9 (as amended) — Each of the tag, info and find Merge operations leaves
    in the receiver the merged error aggregate (the second operand's errors
    appended, the fatal flags ORed).  It returns that aggregate when the
    second operand's response body is nil, and returns nil when the body is
    non-nil.  (The info and find merges run to completion whenever there are
    statistics to merge into and a response to merge into.) *)
Theorem Merge_returned_aggregate :
  (∀ first second : ServerTagResponse.t,
     ServerTagResponse.Err (ServerTagResponse.Merge first second).1
     = Some (mergeErr (ServerTagResponse.Err first) (ServerTagResponse.Err second))
     ∧ (ServerTagResponse.Merge first second).2
       = match ServerTagResponse.Response second with
         | None => Some (mergeErr (ServerTagResponse.Err first)
                                  (ServerTagResponse.Err second))
         | Some _ => None
         end)
  ∧ (∀ (stats : Type) (ops : StatsOps stats) (info : Type)
       (first second : ServerInfoResponse.t stats info),
       (is_Some (ServerInfoResponse.Stats second) →
        is_Some (ServerInfoResponse.Stats first)) →
       (is_Some (ServerInfoResponse.Response second) →
        ∃ m1, ServerInfoResponse.Response first
              = Some {| ServerInfoResponse.Info := Some m1 |}) →
       ∃ first',
         ServerInfoResponse.Merge first second
         = Some (first',
                 match ServerInfoResponse.Response second with
                 | None => Some (mergeErr (ServerInfoResponse.Err first)
                                          (ServerInfoResponse.Err second))
                 | Some _ => None
                 end)
         ∧ ServerInfoResponse.Err first'
           = Some (mergeErr (ServerInfoResponse.Err first)
                            (ServerInfoResponse.Err second)))
  ∧ (∀ (stats : Type) (ops : StatsOps stats)
       (first second : ServerFindResponse.t stats),
       (is_Some (ServerFindResponse.Stats second) →
        is_Some (ServerFindResponse.Stats first)) →
       (is_Some (ServerFindResponse.Response second) →
        is_Some (ServerFindResponse.Response first)) →
       ∃ first',
         ServerFindResponse.Merge first second
         = Some (first',
                 match ServerFindResponse.Response second with
                 | None => Some (mergeErr (ServerFindResponse.Err first)
                                          (ServerFindResponse.Err second))
                 | Some _ => None
                 end)
         ∧ ServerFindResponse.Err first'
           = Some (mergeErr (ServerFindResponse.Err first)
                            (ServerFindResponse.Err second))).
Proof.
  split; [|split].
  - intros first second. unfold ServerTagResponse.Merge.
    by destruct (ServerTagResponse.Response second).
  - intros stats ops info first second. apply InfoMerge.info_Merge_returns.
  - intros stats ops first second. apply FindMerge.find_Merge_returns.
Qed.

Lemma Merge_returned_aggregate_witness :
  ServerTagResponse.Err
    (ServerTagResponse.Merge NewServerTagResponse TagSamples.failed).1
  = Some {| Errors.HaveFatalErrors := true;
            Errors.Errors := [ErrOther "shard unreachable"] |}
  ∧ (ServerTagResponse.Merge NewServerTagResponse TagSamples.failed).2
    = Some {| Errors.HaveFatalErrors := true;
              Errors.Errors := [ErrOther "shard unreachable"] |}
  ∧ (ServerTagResponse.Merge NewServerTagResponse TagSamples.degraded).2 = None
  ∧ (is_Some (ServerInfoResponse.Stats InfoSamples.partial) →
     is_Some (ServerInfoResponse.Stats InfoSamples.running))
  ∧ (is_Some (ServerInfoResponse.Response InfoSamples.partial) →
     ∃ m1, ServerInfoResponse.Response InfoSamples.running
           = Some {| ServerInfoResponse.Info := Some m1 |})
  ∧ (∃ first',
       ServerInfoResponse.Merge InfoSamples.running InfoSamples.partial
       = Some (first', None)
       ∧ ServerInfoResponse.Err first' = Some Errors.new)
  ∧ (is_Some (ServerFindResponse.Stats FindSamples.partial) →
     is_Some (ServerFindResponse.Stats FindSamples.running))
  ∧ (is_Some (ServerFindResponse.Response FindSamples.partial) →
     is_Some (ServerFindResponse.Response FindSamples.running))
  ∧ (∃ first',
       ServerFindResponse.Merge FindSamples.running FindSamples.partial
       = Some (first', None)
       ∧ ServerFindResponse.Err first' = Some Errors.new).
Proof.
  destruct Merge_returned_aggregate as (Htag & Hinfo & Hfind).
  assert (Hsome : ∀ (A : Type) (x : A), is_Some (Some x)) by (intros; by eexists).
  split; [exact (proj1 (Htag NewServerTagResponse TagSamples.failed))|].
  split; [exact (proj2 (Htag NewServerTagResponse TagSamples.failed))|].
  split; [exact (proj2 (Htag NewServerTagResponse TagSamples.degraded))|].
  assert (Hmap : is_Some (ServerInfoResponse.Response InfoSamples.partial) →
                 ∃ m1, ServerInfoResponse.Response InfoSamples.running
                       = Some {| ServerInfoResponse.Info := Some m1 |}).
  { intros _. eexists. reflexivity. }
  split; [intros _; apply Hsome|]. split; [exact Hmap|].
  split.
  { apply (Hinfo Z _ Z InfoSamples.running InfoSamples.partial);
      [intros _; apply Hsome|exact Hmap]. }
  split; [intros _; apply Hsome|]. split; [intros _; apply Hsome|].
  apply (Hfind Z _ FindSamples.running FindSamples.partial);
    intros _; apply Hsome.
Defined.

(** C9 (as stated) fails: a tag aggregate merged with a partial response whose
    body is non-nil and whose shard recorded a fatal error returns nil, not
    the merged error aggregate, which the receiver holds. *)
Lemma tag_Merge_returns_nil :
  ServerTagResponse.Response TagSamples.degraded = Some ["region"]
  ∧ ServerTagResponse.Err
      (ServerTagResponse.Merge NewServerTagResponse TagSamples.degraded).1
    = Some {| Errors.HaveFatalErrors := true;
              Errors.Errors := [ErrOther "shard unreachable"] |}
  ∧ (ServerTagResponse.Merge NewServerTagResponse TagSamples.degraded).2 = None
  ∧ (ServerTagResponse.Merge NewServerTagResponse TagSamples.degraded).2
    ≠ ServerTagResponse.Err
        (ServerTagResponse.Merge NewServerTagResponse TagSamples.degraded).1.
Proof. repeat split; discriminate. Qed.

(** * Further properties *)

(** ** The per-series reconciler *)

(** The reconciler by cases: what it leaves in the two records and what it
    returns. *)
Lemma MergeFetchResponses_cases (m1 m2 : FetchResponse.t) (uuid : string) :
  MergeFetchResponses m1 m2 uuid =
  if decide (RequestStartTime m1 ≠ RequestStartTime m2) then
    Some (m1, m2, Errors.FromErr (Some ErrResponseStartTimeMismatch))
  else if decide (StepTime m1 = StepTime m2) then
    if decide (StartTime m1 ≠ StartTime m2) then
      Some (m1, m2, Errors.FromErr (Some ErrResponseStartTimeMismatch))
    else if decide (length (Values m1) < length (Values m2))%nat then
      Some (setValues (swapFetchResponses m1 m2).1 (gapFill (Values m2) (Values m1)),
            (swapFetchResponses m1 m2).2, Errors.FromErr None)
    else Some (setValues m1 (gapFill (Values m1) (Values m2)), m2, Errors.FromErr None)
  else if decide (StepTime m1 > StepTime m2) then
    Some ((swapFetchResponses m1 m2).1, (swapFetchResponses m1 m2).2,
          Errors.FromErr None)
  else Some (m1, m2, Errors.FromErr None).
Proof.
  unfold MergeFetchResponses, mergeFetchResponsesErr.
  destruct (decide (RequestStartTime m1 ≠ RequestStartTime m2)); [done|].
  destruct (decide (StepTime m1 = StepTime m2)).
  - destruct (decide (StartTime m1 ≠ StartTime m2)) as [Hne|Heq].
    + unfold mergeFetchResponsesWithEqualStepTimes. by rewrite decide_True.
    + rewrite mergeFetchResponsesWithEqualStepTimes_eq
        by (destruct (decide (StartTime m1 = StartTime m2)); [done|by destruct Heq]).
      by destruct (decide (length (Values m1) < length (Values m2))%nat).
  - unfold mergeFetchResponsesWithUnequalStepTimes.
    by destruct (decide (StepTime m1 > StepTime m2)).
Qed.

Lemma gapFill_idem (v1 v2 : list float) : gapFill (gapFill v1 v2) v2 = gapFill v1 v2.
Proof.
  apply list_eq. intros j. rewrite !gapFill_lookup.
  destruct (v1 !! j) as [x|]; simpl; [|done].
  destruct (IsNaN x) eqn:Hx.
  - destruct (v2 !! j) as [y|]; simpl; [|by rewrite Hx].
    by destruct (IsNaN y).
  - by rewrite Hx.
Qed.

Lemma setValues_setValues (m : FetchResponse.t) (v w : list float) :
  setValues (setValues m v) w = setValues m w.
Proof. done. Qed.

(** X1 — swapFetchResponses is its own inverse: swapping the two records twice
    restores both of them, field for field. *)
Theorem swapFetchResponses_involutive (m1 m2 : FetchResponse.t) :
  swapFetchResponses (swapFetchResponses m1 m2).1 (swapFetchResponses m1 m2).2
  = (m1, m2).
Proof. by destruct m1, m2. Qed.

(** X2 — Whatever the two records are, MergeFetchResponses returns, and it
    never changes the requested start or stop time of either record. *)
Theorem MergeFetchResponses_keeps_request_window (m1 m2 : FetchResponse.t)
    (uuid : string) :
  ∃ a b e,
    MergeFetchResponses m1 m2 uuid = Some (a, b, e)
    ∧ RequestStartTime a = RequestStartTime m1
    ∧ RequestStopTime a = RequestStopTime m1
    ∧ RequestStartTime b = RequestStartTime m2
    ∧ RequestStopTime b = RequestStopTime m2.
Proof.
  rewrite MergeFetchResponses_cases.
  repeat case_decide; eexists _, _, _; (split; [reflexivity|]); done.
Qed.

(** X3 — MergeFetchResponses reports the start-time mismatch exactly when the
    requested start times differ, or the step times are equal and the data
    start times differ; it then leaves both records as they were.  In every
    other case it returns the aggregate of no error. *)
Theorem MergeFetchResponses_error_iff (m1 m2 : FetchResponse.t) (uuid : string) :
  ∃ a b e,
    MergeFetchResponses m1 m2 uuid = Some (a, b, e)
    ∧ (startMismatch m1 m2 →
       e = Errors.FromErr (Some ErrResponseStartTimeMismatch) ∧ a = m1 ∧ b = m2)
    ∧ (¬ startMismatch m1 m2 → e = Errors.FromErr None).
Proof.
  rewrite MergeFetchResponses_cases. unfold startMismatch.
  repeat case_decide; eexists _, _, _; (split; [reflexivity|]);
    split; try done; intros Hm; exfalso; tauto.
Qed.

Lemma MergeFetchResponses_error_iff_witness :
  startMismatch Samples.a FetchSamples.shifted
  ∧ ¬ startMismatch Samples.a Samples.b
  ∧ MergeFetchResponses Samples.a FetchSamples.shifted "uuid"
    = Some (Samples.a, FetchSamples.shifted,
            Errors.FromErr (Some ErrResponseStartTimeMismatch))
  ∧ ∃ a b, MergeFetchResponses Samples.a Samples.b "uuid"
           = Some (a, b, Errors.FromErr None).
Proof.
  assert (H1 : startMismatch Samples.a FetchSamples.shifted).
  { right. split; [reflexivity|discriminate]. }
  assert (H2 : ¬ startMismatch Samples.a Samples.b).
  { intros [Hr|[_ Hs]]; [by apply Hr|by apply Hs]. }
  split; [exact H1|]. split; [exact H2|]. split.
  - destruct (MergeFetchResponses_error_iff Samples.a FetchSamples.shifted "uuid")
      as (a & b & e & Hm & Herr & _).
    destruct (Herr H1) as (-> & -> & ->). exact Hm.
  - destruct (MergeFetchResponses_error_iff Samples.a Samples.b "uuid")
      as (a & b & e & Hm & _ & Hok).
    rewrite (Hok H2) in Hm. by exists a, b.
Defined.

(** X4 — The reconciler is idempotent on its own output: merging the two
    records again, as a first merge left them, changes neither record and
    returns the same result. *)
Theorem MergeFetchResponses_idempotent (m1 m2 a b : FetchResponse.t)
    (e : Errors.t) (uuid : string) :
  MergeFetchResponses m1 m2 uuid = Some (a, b, e) →
  MergeFetchResponses a b uuid = Some (a, b, e).
Proof.
  rewrite MergeFetchResponses_cases.
  destruct (decide (RequestStartTime m1 ≠ RequestStartTime m2)) as [Hr|Hr].
  { intros [= <- <- <-]. rewrite MergeFetchResponses_cases. by rewrite decide_True. }
  destruct (decide (StepTime m1 = StepTime m2)) as [Hs|Hs].
  - destruct (decide (StartTime m1 ≠ StartTime m2)) as [Ht|Ht].
    { intros [= <- <- <-]. rewrite MergeFetchResponses_cases.
      rewrite decide_False, decide_True, decide_True by done. done. }
    assert (RequestStartTime m1 = RequestStartTime m2) as Hr'
      by (destruct (decide (RequestStartTime m1 = RequestStartTime m2)); tauto).
    assert (StartTime m1 = StartTime m2) as Ht'
      by (destruct (decide (StartTime m1 = StartTime m2)); tauto).
    destruct (decide (length (Values m1) < length (Values m2))%nat) as [Hl|Hl];
      intros [= <- <- <-]; rewrite MergeFetchResponses_cases; simpl.
    + rewrite decide_False by (intros Hn; by apply Hn).
      rewrite decide_True by done.
      rewrite decide_False by (intros Hn; by apply Hn).
      rewrite gapFill_length, decide_False by lia.
      by rewrite gapFill_idem.
    + rewrite decide_False by done. rewrite decide_True by done.
      rewrite decide_False by done.
      rewrite gapFill_length, decide_False by lia.
      by rewrite gapFill_idem.
  - destruct (decide (StepTime m1 > StepTime m2)) as [Hg|Hg];
      intros [= <- <- <-]; rewrite MergeFetchResponses_cases; simpl.
    + rewrite decide_False by (intros Hn; apply Hn; by destruct (decide (RequestStartTime m1 = RequestStartTime m2)); [|tauto]).
      rewrite decide_False by (intros Heq; by apply Hs).
      rewrite decide_False by lia. done.
    + rewrite decide_False by done. rewrite decide_False by done.
      rewrite decide_False by done. done.
Qed.

Lemma MergeFetchResponses_idempotent_witness :
  MergeFetchResponses Samples.a Samples.b "uuid"
  = Some (setValues Samples.a [1%float; 2%float; 3%float], Samples.b, Errors.new)
  ∧ MergeFetchResponses (setValues Samples.a [1%float; 2%float; 3%float]) Samples.b "uuid"
    = Some (setValues Samples.a [1%float; 2%float; 3%float], Samples.b, Errors.new).
Proof.
  assert (H1 : MergeFetchResponses Samples.a Samples.b "uuid"
    = Some (setValues Samples.a [1%float; 2%float; 3%float], Samples.b, Errors.new))
    by reflexivity.
  split; [exact H1|].
  exact (MergeFetchResponses_idempotent _ _ _ _ _ _ H1).
Defined.

(** X5 — After a successful equal-step merge the first record is as long as
    the longer input, the second as long as the shorter, and the merged
    series has a gap at an index exactly where both inputs have a gap (no
    sample, or not-a-number) there. *)
Theorem MergeFetchResponses_gaps (m1 m2 : FetchResponse.t) (uuid : string) :
  RequestStartTime m1 = RequestStartTime m2 →
  StepTime m1 = StepTime m2 →
  StartTime m1 = StartTime m2 →
  ∃ a b,
    MergeFetchResponses m1 m2 uuid = Some (a, b, Errors.FromErr None)
    ∧ length (Values a) = (length (Values m1) `max` length (Values m2))%nat
    ∧ length (Values b) = (length (Values m1) `min` length (Values m2))%nat
    ∧ ∀ i, gapAt (Values a) i ↔ gapAt (Values m1) i ∧ gapAt (Values m2) i.
Proof.
  intros Hr Hs Ht. rewrite MergeFetchResponses_cases.
  rewrite decide_False by (intros Hn; by apply Hn).
  rewrite decide_True by done.
  rewrite decide_False by (intros Hn; by apply Hn).
  assert (Hgap : ∀ base other i,
    (length other ≤ length base)%nat →
    gapAt (gapFill base other) i ↔ gapAt base i ∧ gapAt other i).
  { intros base other i Hle. unfold gapAt. rewrite gapFill_lookup.
    destruct (base !! i) as [x|] eqn:Hx; simpl.
    - destruct (other !! i) as [y|] eqn:Hy; simpl.
      + destruct (IsNaN x) eqn:Hnx.
        * split.
          -- intros Hg. split; intros z [= <-]; [done|]. by apply Hg.
          -- intros [_ Hg] z [= <-]. by apply Hg.
        * split.
          -- intros Hg. specialize (Hg x eq_refl). congruence.
          -- intros [Hg _]. specialize (Hg x eq_refl). congruence.
      + destruct (IsNaN x) eqn:Hnx.
        * split; [|intros _ z [= <-]; done].
          intros _. split; [intros z [= <-]; done|done].
        * split.
          -- intros Hg. specialize (Hg x eq_refl). congruence.
          -- intros [Hg _]. specialize (Hg x eq_refl). congruence.
    - split; [|done]. intros _. split; [done|].
      rewrite (lookup_ge_None_2 other i); [done|].
      apply lookup_ge_None_1 in Hx. lia. }
  destruct (decide (length (Values m1) < length (Values m2))%nat) as [Hl|Hl];
    eexists _, _; (split; [reflexivity|]); simpl; rewrite gapFill_length.
  - split; [lia|]. split; [lia|]. intros i. rewrite Hgap by lia. tauto.
  - split; [lia|]. split; [lia|]. intros i. by rewrite Hgap by lia.
Qed.

Lemma MergeFetchResponses_gaps_witness :
  RequestStartTime Samples.short = RequestStartTime Samples.long ∧
  StepTime Samples.short = StepTime Samples.long ∧
  StartTime Samples.short = StartTime Samples.long ∧
  ∃ a b,
    MergeFetchResponses Samples.short Samples.long "uuid"
    = Some (a, b, Errors.FromErr None)
    ∧ length (Values a) = 2%nat
    ∧ length (Values b) = 1%nat
    ∧ ∀ i, gapAt (Values a) i
           ↔ gapAt (Values Samples.short) i ∧ gapAt (Values Samples.long) i.
Proof.
  split; [reflexivity|]. split; [reflexivity|]. split; [reflexivity|].
  exact (MergeFetchResponses_gaps Samples.short Samples.long "uuid"
           eq_refl eq_refl eq_refl).
Defined.

(** ** The fetch aggregate, continued *)

Module FetchProps.
Import ServerFetchResponse FetchNotions.

(** A pair of records that share the lookup key keeps it through the
    reconciler. *)
Lemma MergeFetchResponses_coordinates (m1 m2 a b : FetchResponse.t)
    (e : Errors.t) (uuid : string) :
  coordinates m1 = coordinates m2 →
  MergeFetchResponses m1 m2 uuid = Some (a, b, e) →
  coordinates a = coordinates m1 ∧ coordinates b = coordinates m2.
Proof.
  intros Hc. assert (Hn : Name m1 = Name m2) by (by injection Hc).
  rewrite MergeFetchResponses_cases. unfold coordinates.
  repeat case_decide; intros [= <- <- <-]; simpl; by rewrite ?Hn.
Qed.

(** What the first loop leaves in the index. *)
Lemma indexSeries_spec (ms : list FetchResponse.t) :
  ∀ (i : nat) (metrics : gmap fetchResponseCoordinates nat) (c : fetchResponseCoordinates),
    (c ∉ coordinates <$> ms → indexSeries i ms metrics !! c = metrics !! c)
    ∧ (c ∈ coordinates <$> ms → is_Some (indexSeries i ms metrics !! c))
    ∧ (∀ j, indexSeries i ms metrics !! c = Some j →
         metrics !! c = Some j
         ∨ ∃ f, ms !! (j - i)%nat = Some f ∧ coordinates f = c ∧ (i ≤ j)%nat).
Proof.
  induction ms as [|m rest IH]; intros i metrics c; simpl.
  - split; [done|]. split; [by intros ?%elem_of_nil|]. intros j Hj. by left.
  - destruct (IH (S i) (<[coordinates m := i]> metrics) c) as (IH1 & IH2 & IH3).
    split; [|split].
    + intros [Hne Hout]%not_elem_of_cons. rewrite IH1 by done.
      by rewrite lookup_insert_ne.
    + intros [->|Hin]%elem_of_cons.
      * destruct (decide (coordinates m ∈ coordinates <$> rest)) as [Hin|Hout].
        -- by apply IH2.
        -- rewrite IH1 by done. rewrite lookup_insert_eq. by eexists.
      * by apply IH2.
    + intros j Hj. destruct (IH3 j Hj) as [Hm|(f & Hf & Hcf & Hij)].
      * destruct (decide (c = coordinates m)) as [->|Hne].
        -- rewrite lookup_insert_eq in Hm. injection Hm as <-.
           right. exists m. rewrite Nat.sub_diag. done.
        -- rewrite lookup_insert_ne in Hm by done. by left.
      * right. exists f. split; [|split; [done|lia]].
        replace (j - i)%nat with (S (j - S i)) by lia. done.
Qed.

Lemma index_Some (F : list FetchResponse.t) (c : fetchResponseCoordinates) (j : nat) :
  indexSeries 0 F ∅ !! c = Some j → ∃ f, F !! j = Some f ∧ coordinates f = c.
Proof.
  intros Hj. destruct (indexSeries_spec F 0 ∅ c) as (_ & _ & H3).
  destruct (H3 j Hj) as [He|(f & Hf & Hc & _)]; [by rewrite lookup_empty in He|].
  exists f. by rewrite Nat.sub_0_r in Hf.
Qed.

Lemma index_None (F : list FetchResponse.t) (c : fetchResponseCoordinates) :
  indexSeries 0 F ∅ !! c = None ↔ c ∉ coordinates <$> F.
Proof.
  destruct (indexSeries_spec F 0 ∅ c) as (H1 & H2 & _). split.
  - intros Hn Hin. apply H2 in Hin. rewrite Hn in Hin. by destruct Hin.
  - intros Hout. by rewrite H1.
Qed.

(** The loop over second's series keeps every receiver series at its
    position and under its key, and appends the series of second whose key
    the index lacks. *)
Lemma mergeSeries_shape (metrics : gmap fetchResponseCoordinates nat) (uuid : string)
    (ss : list FetchResponse.t) :
  ∀ fm0 A : list FetchResponse.t,
    (∀ c j, metrics !! c = Some j → ∃ f, fm0 !! j = Some f ∧ coordinates f = c) →
    ∃ fm0' ss',
      mergeSeries metrics uuid ss (fm0 ++ A)
      = Some (fm0' ++ A ++ filter (fun s => metrics !! coordinates s = None) ss, ss')
      ∧ coordinates <$> fm0' = coordinates <$> fm0
      ∧ coordinates <$> ss' = coordinates <$> ss.
Proof.
  induction ss as [|s rest IH]; intros fm0 A Hinv; simpl.
  - exists fm0, []. by rewrite app_nil_r.
  - rewrite filter_cons.
    destruct (metrics !! coordinates s) as [j|] eqn:Hj.
    + destruct (Hinv _ _ Hj) as (f & Hf & Hcf).
      rewrite (lookup_app_l_Some _ _ _ _ Hf).
      destruct (MergeFetchResponses_total f s uuid) as [[[a b] e] Hm].
      rewrite Hm.
      destruct (MergeFetchResponses_coordinates f s a b e uuid Hcf Hm) as [Ha Hb].
      rewrite insert_app_l by (by eapply lookup_lt_Some).
      assert (Hkeys : coordinates <$> <[j := a]> fm0 = coordinates <$> fm0).
      { rewrite list_fmap_insert. apply list_insert_id.
        by rewrite list_lookup_fmap, Hf, Ha. }
      destruct (IH (<[j := a]> fm0) A) as (fm0' & ss' & -> & Hk1 & Hk2).
      { intros c k Hc. destruct (Hinv _ _ Hc) as (g & Hg & Hcg).
        destruct (decide (k = j)) as [->|Hne].
        - exists a. rewrite list_lookup_insert_eq by (by eapply lookup_lt_Some).
          split; [done|]. rewrite Ha. congruence.
        - exists g. by rewrite list_lookup_insert_ne. }
      exists fm0', (b :: ss'). rewrite decide_False by done.
      split; [done|]. split; [congruence|]. by rewrite !fmap_cons, Hb, Hk2.
    + rewrite <- app_assoc.
      destruct (IH fm0 (A ++ [s]) Hinv) as (fm0' & ss' & -> & Hk1 & Hk2).
      exists fm0', (s :: ss'). rewrite decide_True by done.
      split; [by rewrite <- !app_assoc|]. split; [done|]. by rewrite !fmap_cons, Hk2.
Qed.

(** Without an index every series is new. *)
Lemma mergeSeries_empty_index (uuid : string) (ss : list FetchResponse.t) :
  ∀ fm : list FetchResponse.t, mergeSeries ∅ uuid ss fm = Some (fm ++ ss, ss).
Proof.
  induction ss as [|s rest IH]; intros fm; simpl; [by rewrite app_nil_r|].
  rewrite lookup_empty, IH. by rewrite <- app_assoc.
Qed.

(** Under unique keys on both sides every receiver series meets its one
    partner. *)
Lemma mergeSeries_pairwise (metrics : gmap fetchResponseCoordinates nat) (uuid : string)
    (ss : list FetchResponse.t) :
  ∀ fm0 A : list FetchResponse.t,
    (∀ c j, metrics !! c = Some j → ∃ f, fm0 !! j = Some f ∧ coordinates f = c) →
    (∀ c, metrics !! c = None → c ∉ coordinates <$> fm0) →
    NoDup (coordinates <$> fm0) →
    NoDup (coordinates <$> ss) →
    ∃ ss',
      mergeSeries metrics uuid ss (fm0 ++ A)
      = Some ((reconciled uuid ss <$> fm0)
              ++ A ++ filter (fun s => metrics !! coordinates s = None) ss, ss').
Proof.
  induction ss as [|s rest IH]; intros fm0 A Hinv Hnone Hnd Hnds; simpl.
  - exists []. rewrite app_nil_r. do 3 f_equal.
    rewrite <- (list_fmap_id fm0) at 1. done.
  - apply NoDup_cons in Hnds as [Hs Hnds]. rewrite filter_cons.
    destruct (metrics !! coordinates s) as [j|] eqn:Hj.
    + destruct (Hinv _ _ Hj) as (f & Hf & Hcf).
      rewrite (lookup_app_l_Some _ _ _ _ Hf).
      destruct (MergeFetchResponses_total f s uuid) as [[[a b] e] Hm].
      rewrite Hm.
      destruct (MergeFetchResponses_coordinates f s a b e uuid Hcf Hm) as [Ha Hb].
      rewrite insert_app_l by (by eapply lookup_lt_Some).
      assert (Hkeys : coordinates <$> <[j := a]> fm0 = coordinates <$> fm0).
      { rewrite list_fmap_insert. apply list_insert_id.
        by rewrite list_lookup_fmap, Hf, Ha. }
      destruct (IH (<[j := a]> fm0) A) as (ss' & ->).
      { intros c k Hc. destruct (Hinv _ _ Hc) as (g & Hg & Hcg).
        destruct (decide (k = j)) as [->|Hne].
        - exists a. rewrite list_lookup_insert_eq by (by eapply lookup_lt_Some).
          split; [done|]. rewrite Ha. congruence.
        - exists g. by rewrite list_lookup_insert_ne. }
      { intros c Hc. rewrite Hkeys. by apply Hnone. }
      { by rewrite Hkeys. }
      { done. }
      exists (b :: ss'). rewrite decide_False by done. do 3 f_equal.
      apply list_eq. intros k. rewrite !list_lookup_fmap.
      destruct (decide (k = j)) as [->|Hne].
      * rewrite list_lookup_insert_eq by (by eapply lookup_lt_Some).
        rewrite Hf. simpl. f_equal. unfold reconciled, partner.
        rewrite filter_cons, decide_True by congruence. simpl. rewrite Hm.
        rewrite (FindMerge.filter_drop_all _ rest); [done|].
        intros s' Hs' Heq. apply Hs. rewrite Ha, Hcf in Heq. rewrite <- Heq.
        by apply list_elem_of_fmap_2.
      * rewrite list_lookup_insert_ne by done.
        destruct (fm0 !! k) as [g|] eqn:Hg; simpl; [|done]. f_equal.
        unfold reconciled, partner. rewrite filter_cons, decide_False; [done|].
        intros Heq. apply Hne.
        apply (NoDup_lookup (coordinates <$> fm0) k j (coordinates g)); [done| |].
        -- by rewrite list_lookup_fmap, Hg.
        -- rewrite list_lookup_fmap, Hf. simpl. congruence.
    + rewrite <- app_assoc.
      destruct (IH fm0 (A ++ [s]) Hinv Hnone Hnd Hnds) as (ss' & ->).
      exists (s :: ss'). rewrite decide_True by done.
      rewrite <- !app_assoc. simpl. do 3 f_equal.
      apply list_fmap_ext. intros k g Hg.
      unfold reconciled, partner. rewrite filter_cons, decide_False; [done|].
      intros Heq. apply (Hnone _ Hj). rewrite Heq.
      apply list_elem_of_fmap_2. by eapply list_elem_of_lookup_2.
Qed.

Lemma fmap_filter_coordinates (X : list fetchResponseCoordinates)
    (S : list FetchResponse.t) :
  coordinates <$> filter (fun s => coordinates s ∉ X) S
  = filter (fun c => c ∉ X) (coordinates <$> S).
Proof.
  induction S as [|s rest IH]; [done|]. rewrite fmap_cons, !filter_cons.
  destruct (decide (coordinates s ∉ X)); [rewrite fmap_cons|]; by rewrite IH.
Qed.

Section Facts.
Context {stats : Type} `{StatsOps stats}.

(** The run of Merge past its two early returns. *)
Lemma Merge_series (first second : ServerFetchResponse.t stats) (uuid : string)
    (r1 r2 : MultiFetchResponse) :
  Response first = Some r1 →
  Response second = Some r2 →
  (is_Some (Stats second) → is_Some (Stats first)) →
  Errors.HaveFatalErrors (mergeErr (Err first) (Err second)) = false →
  ∀ fm ss,
    mergeSeries (indexSeries 0 (Metrics r1) ∅) uuid (Metrics r2) (Metrics r1)
    = Some (fm, ss) →
    ∃ first' second',
      Merge first second uuid = Some (first', second')
      ∧ Response first' = Some {| Metrics := fm |}
      ∧ Response second' = Some {| Metrics := ss |}.
Proof.
  intros Hr1 Hr2 Hstats Hok fm ss Hms. unfold Merge.
  destruct (mergeStats (Stats first) (Stats second)) as [st|] eqn:Hst.
  - rewrite Hok, Hr1, Hr2, Hms. by eexists _, _.
  - unfold mergeStats in Hst.
    destruct (Stats second) as [b|]; [|done].
    destruct (Stats first) as [a|]; [done|].
    by destruct Hstats as [? ?].
Qed.

(** X6 — A fetch merge that goes through (no fatal error, non-nil bodies)
    keeps every series of the receiver at its position and under its lookup
    key, and appends, in second's order, exactly the series of second whose
    key the receiver did not have; the series of second keep their keys
    too. *)
Theorem Merge_keeps_positions_and_keys (first second : ServerFetchResponse.t stats)
    (uuid : string) (r1 r2 : MultiFetchResponse) :
  Response first = Some r1 →
  Response second = Some r2 →
  (is_Some (Stats second) → is_Some (Stats first)) →
  Errors.HaveFatalErrors (mergeErr (Err first) (Err second)) = false →
  ∃ first' second' kept ss,
    Merge first second uuid = Some (first', second')
    ∧ Response first'
      = Some {| Metrics :=
           kept ++ filter (fun s => coordinates s ∉ coordinates <$> Metrics r1)
                          (Metrics r2) |}
    ∧ coordinates <$> kept = coordinates <$> Metrics r1
    ∧ Response second' = Some {| Metrics := ss |}
    ∧ coordinates <$> ss = coordinates <$> Metrics r2.
Proof.
  intros Hr1 Hr2 Hstats Hok.
  destruct (mergeSeries_shape (indexSeries 0 (Metrics r1) ∅) uuid (Metrics r2)
              (Metrics r1) []) as (kept & ss & Hms & Hk1 & Hk2).
  { apply index_Some. }
  rewrite app_nil_r in Hms. simpl in Hms.
  destruct (Merge_series first second uuid r1 r2 Hr1 Hr2 Hstats Hok _ _ Hms)
    as (first' & second' & Hm & Hf & Hs).
  exists first', second', kept, ss. split; [done|]. split; [|done].
  rewrite Hf. do 3 f_equal. apply list_filter_iff. intros s. apply index_None.
Qed.

(** X7 — Uniqueness of the lookup key is an invariant of the fetch merge: if
    no two series of the receiver share a key and no two series of second
    share a key, no two series of the merged receiver share a key. *)
Theorem Merge_keeps_keys_unique (first second : ServerFetchResponse.t stats)
    (uuid : string) (r1 r2 : MultiFetchResponse) :
  Response first = Some r1 →
  Response second = Some r2 →
  (is_Some (Stats second) → is_Some (Stats first)) →
  NoDup (coordinates <$> Metrics r1) →
  NoDup (coordinates <$> Metrics r2) →
  ∃ first' second' r1',
    Merge first second uuid = Some (first', second')
    ∧ Response first' = Some r1'
    ∧ NoDup (coordinates <$> Metrics r1').
Proof.
  intros Hr1 Hr2 Hstats Hnd1 Hnd2.
  destruct (Errors.HaveFatalErrors (mergeErr (Err first) (Err second))) eqn:Hfatal.
  - destruct (FetchMerge.fetch_Merge_total first second uuid) as [[first' second'] Hm];
      [done|by rewrite Hr1|].
    exists first', second', r1. split; [done|]. split; [|done].
    unfold Merge in Hm.
    destruct (mergeStats (Stats first) (Stats second)); [|done].
    rewrite Hfatal in Hm. injection Hm as <- <-. done.
  - destruct (mergeSeries_shape (indexSeries 0 (Metrics r1) ∅) uuid (Metrics r2)
                (Metrics r1) []) as (kept & ss & Hms & Hk1 & Hk2).
    { apply index_Some. }
    rewrite app_nil_r in Hms. simpl in Hms.
    destruct (Merge_series first second uuid r1 r2 Hr1 Hr2 Hstats Hfatal _ _ Hms)
      as (first' & second' & Hm & Hf & Hs).
    exists first', second'. eexists. split; [done|]. split; [done|]. simpl.
    rewrite fmap_app, Hk1.
    rewrite (list_filter_iff _ (fun s => coordinates s ∉ coordinates <$> Metrics r1))
      by (intros s; apply index_None).
    rewrite fmap_filter_coordinates.
    apply NoDup_app. split; [done|]. split.
    + intros c Hc [Hout _]%list_elem_of_filter. by apply Hout.
    + by apply NoDup_filter.
Qed.

(** X8 — Under unique lookup keys on both sides, a fetch merge that goes
    through reconciles every series of the receiver with the one series of
    second that shares its key (and leaves it alone if there is none), then
    appends the series of second without a partner. *)
Theorem Merge_pairwise (first second : ServerFetchResponse.t stats)
    (uuid : string) (r1 r2 : MultiFetchResponse) :
  Response first = Some r1 →
  Response second = Some r2 →
  (is_Some (Stats second) → is_Some (Stats first)) →
  Errors.HaveFatalErrors (mergeErr (Err first) (Err second)) = false →
  NoDup (coordinates <$> Metrics r1) →
  NoDup (coordinates <$> Metrics r2) →
  ∃ first' second',
    Merge first second uuid = Some (first', second')
    ∧ Response first'
      = Some {| Metrics :=
           (reconciled uuid (Metrics r2) <$> Metrics r1)
           ++ filter (fun s => coordinates s ∉ coordinates <$> Metrics r1)
                     (Metrics r2) |}.
Proof.
  intros Hr1 Hr2 Hstats Hok Hnd1 Hnd2.
  destruct (mergeSeries_pairwise (indexSeries 0 (Metrics r1) ∅) uuid (Metrics r2)
              (Metrics r1) []) as (ss & Hms); [| |done|done|].
  { apply index_Some. }
  { intros c. apply index_None. }
  rewrite app_nil_r in Hms. simpl in Hms.
  destruct (Merge_series first second uuid r1 r2 Hr1 Hr2 Hstats Hok _ _ Hms)
    as (first' & second' & Hm & Hf & _).
  exists first', second'. split; [done|].
  rewrite Hf. do 3 f_equal. apply list_filter_iff. intros s. apply index_None.
Qed.

(** X9 — The empty aggregate is a base case of the fold: merging a partial
    response without fatal error into a new fetch aggregate gives the
    aggregate the shard's name and exactly the series of the response, in
    order, and leaves the response as it was; a response flagged fatal or
    without body leaves the aggregate without series. *)
Theorem Merge_into_new (zero : stats) (second : ServerFetchResponse.t stats)
    (uuid : string) :
  ∃ first',
    Merge (NewServerFetchResponse zero) second uuid = Some (first', second)
    ∧ Server first' = Server second
    ∧ Response first'
      = Some {| Metrics :=
           if Errors.HaveFatalErrors (mergeErr (Some Errors.new) (Err second))
           then []
           else match Response second with
                | Some r2 => Metrics r2
                | None => []
                end |}.
Proof.
  unfold Merge.
  assert (Hserver :
    (if decide (Server (NewServerFetchResponse zero) = "" ∧ Server second ≠ "")
     then Server second else Server (NewServerFetchResponse zero))
    = Server second).
  { case_decide as Hd; [done|]. simpl.
    destruct (decide (Server second = "")) as [->|Hne]; [done|].
    destruct Hd. done. }
  rewrite Hserver.
  change (Stats (NewServerFetchResponse zero)) with (Some zero).
  change (Err (NewServerFetchResponse zero)) with (Some Errors.new).
  change (Response (NewServerFetchResponse zero)) with (Some {| Metrics := [] |}).
  destruct (mergeStats (Some zero) (Stats second)) as [st|] eqn:Hst;
    [|by destruct (Stats second)].
  destruct (Errors.HaveFatalErrors _); [by eexists|].
  destruct second as [srv [[ms]|] sts er]; simpl; [|by eexists].
  rewrite mergeSeries_empty_index. simpl. by eexists.
Qed.

End Facts.

Lemma Merge_keeps_positions_and_keys_witness :
  Response FetchSamples.running = Some {| Metrics := [Samples.a] |} ∧
  Response replica = Some {| Metrics := [Samples.b; FetchSamples.other] |} ∧
  (is_Some (Stats replica) → is_Some (Stats FetchSamples.running)) ∧
  Errors.HaveFatalErrors (mergeErr (Err FetchSamples.running) (Err replica)) = false ∧
  ∃ first' second' kept ss,
    Merge FetchSamples.running replica "uuid" = Some (first', second')
    ∧ Response first' = Some {| Metrics := kept ++ [FetchSamples.other] |}
    ∧ coordinates <$> kept = [coordinates Samples.a]
    ∧ Response second' = Some {| Metrics := ss |}
    ∧ coordinates <$> ss = [coordinates Samples.b; coordinates FetchSamples.other].
Proof.
  assert (Hs : is_Some (Stats replica) → is_Some (Stats FetchSamples.running)).
  { intros _. exists 1. reflexivity. }
  split; [reflexivity|]. split; [reflexivity|]. split; [exact Hs|].
  split; [reflexivity|].
  exact (Merge_keeps_positions_and_keys FetchSamples.running replica "uuid"
           _ _ eq_refl eq_refl Hs eq_refl).
Defined.

Lemma sample_keys_unique :
  NoDup (coordinates <$> [Samples.a])
  ∧ NoDup (coordinates <$> [Samples.b; FetchSamples.other]).
Proof.
  split.
  - apply NoDup_singleton.
  - apply NoDup_cons. split; [|apply NoDup_singleton].
    intros Hin%list_elem_of_singleton. discriminate Hin.
Defined.

Lemma Merge_keeps_keys_unique_witness :
  Response FetchSamples.running = Some {| Metrics := [Samples.a] |} ∧
  Response replica = Some {| Metrics := [Samples.b; FetchSamples.other] |} ∧
  (is_Some (Stats replica) → is_Some (Stats FetchSamples.running)) ∧
  NoDup (coordinates <$> [Samples.a]) ∧
  NoDup (coordinates <$> [Samples.b; FetchSamples.other]) ∧
  ∃ first' second' r1',
    Merge FetchSamples.running replica "uuid" = Some (first', second')
    ∧ Response first' = Some r1'
    ∧ NoDup (coordinates <$> Metrics r1').
Proof.
  assert (Hs : is_Some (Stats replica) → is_Some (Stats FetchSamples.running)).
  { intros _. exists 1. reflexivity. }
  destruct sample_keys_unique as [Hn1 Hn2].
  split; [reflexivity|]. split; [reflexivity|]. split; [exact Hs|].
  split; [exact Hn1|]. split; [exact Hn2|].
  exact (Merge_keeps_keys_unique FetchSamples.running replica "uuid"
           _ _ eq_refl eq_refl Hs Hn1 Hn2).
Defined.

Lemma Merge_pairwise_witness :
  Response FetchSamples.running = Some {| Metrics := [Samples.a] |} ∧
  Response replica = Some {| Metrics := [Samples.b; FetchSamples.other] |} ∧
  (is_Some (Stats replica) → is_Some (Stats FetchSamples.running)) ∧
  Errors.HaveFatalErrors (mergeErr (Err FetchSamples.running) (Err replica)) = false ∧
  NoDup (coordinates <$> [Samples.a]) ∧
  NoDup (coordinates <$> [Samples.b; FetchSamples.other]) ∧
  ∃ first' second',
    Merge FetchSamples.running replica "uuid" = Some (first', second')
    ∧ Response first'
      = Some {| Metrics := [setValues Samples.a [1%float; 2%float; 3%float];
                            FetchSamples.other] |}.
Proof.
  assert (Hs : is_Some (Stats replica) → is_Some (Stats FetchSamples.running)).
  { intros _. exists 1. reflexivity. }
  destruct sample_keys_unique as [Hn1 Hn2].
  split; [reflexivity|]. split; [reflexivity|]. split; [exact Hs|].
  split; [reflexivity|]. split; [exact Hn1|]. split; [exact Hn2|].
  destruct (Merge_pairwise FetchSamples.running replica "uuid"
              _ _ eq_refl eq_refl Hs eq_refl Hn1 Hn2) as (first' & second' & Hm & Hr).
  exists first', second'. split; [exact Hm|]. rewrite Hr. vm_compute. reflexivity.
Defined.

End FetchProps.

(** ** The tag aggregate, continued *)

Module TagProps.
Import ServerTagResponse.

(** The names after a merge with a non-nil list, for a nil or non-nil list of
    the receiver. *)
Lemma Merge_response (first second : ServerTagResponse.t) (l2 : list string) :
  Response second = Some l2 →
  Response (Merge first second).1
  = match filter (fun v => v ∉ default [] (Response first)) l2 with
    | [] => Response first
    | novel => Some (default [] (Response first) ++ novel)
    end.
Proof.
  intros H2. unfold Merge. rewrite H2. simpl.
  rewrite TagMerge.appendMissing_filter.
  by rewrite (list_filter_iff
                (fun v => v ∉ (list_to_set (default [] (Response first)) : gset string))
                (fun v => v ∉ default [] (Response first))) by set_solver.
Qed.

(** X10 — A tag merge never removes or reorders a name of the receiver: the
    merged list is the receiver's list followed by names taken, in order,
    from second's list, none of which the receiver had; and a name is in the
    merged list exactly when it is in one of the two lists. *)
Theorem tag_Merge_union (first second : ServerTagResponse.t) (l1 l2 : list string) :
  Response first = Some l1 →
  Response second = Some l2 →
  ∃ novel,
    Response (Merge first second).1 = Some (l1 ++ novel)
    ∧ novel `sublist_of` l2
    ∧ (∀ v, v ∈ novel → v ∉ l1)
    ∧ ∀ v, v ∈ l1 ++ novel ↔ v ∈ l1 ∨ v ∈ l2.
Proof.
  intros H1 H2. exists (filter (fun v => v ∉ l1) l2).
  split; [by apply TagMerge.Merge_names|].
  split; [apply sublist_filter|]. split.
  - by intros v [Hv _]%list_elem_of_filter.
  - intros v. rewrite elem_of_app, list_elem_of_filter.
    destruct (decide (v ∈ l1)); tauto.
Qed.

Lemma tag_Merge_union_witness :
  Response MoreSamples.regions = Some ["region"; "zone"] ∧
  Response TagSamples.degraded = Some ["region"] ∧
  ∃ novel,
    Response (Merge MoreSamples.regions TagSamples.degraded).1
    = Some (["region"; "zone"] ++ novel)
    ∧ novel `sublist_of` ["region"]
    ∧ (∀ v, v ∈ novel → v ∉ ["region"; "zone"])
    ∧ ∀ v, v ∈ ["region"; "zone"] ++ novel ↔ v ∈ ["region"; "zone"] ∨ v ∈ ["region"].
Proof.
  split; [reflexivity|]. split; [reflexivity|].
  exact (tag_Merge_union MoreSamples.regions TagSamples.degraded _ _ eq_refl eq_refl).
Defined.

(** X11 — Distinctness of names is an invariant of the tag merge when second
    brings no repeated name: if neither list repeats a name, the merged list
    does not. *)
Theorem tag_Merge_keeps_names_unique (first second : ServerTagResponse.t)
    (l1 l2 : list string) :
  Response first = Some l1 →
  Response second = Some l2 →
  NoDup l1 → NoDup l2 →
  ∃ l, Response (Merge first second).1 = Some l ∧ NoDup l.
Proof.
  intros H1 H2 Hn1 Hn2.
  destruct (TagMerge.Merge_NoDup first second l1 l2 H1 H2 Hn1 Hn2) as (l & Hl & Hnd & _).
  by exists l.
Qed.

Lemma sample_names_unique : NoDup ["region"; "zone"] ∧ NoDup ["region"].
Proof.
  split; [|apply NoDup_singleton].
  apply NoDup_cons. split; [|apply NoDup_singleton].
  intros Hin%list_elem_of_singleton. discriminate Hin.
Defined.

Lemma tag_Merge_keeps_names_unique_witness :
  Response MoreSamples.regions = Some ["region"; "zone"] ∧
  Response TagSamples.degraded = Some ["region"] ∧
  NoDup ["region"; "zone"] ∧ NoDup ["region"] ∧
  ∃ l, Response (Merge MoreSamples.regions TagSamples.degraded).1 = Some l ∧ NoDup l.
Proof.
  destruct sample_names_unique as [Hn1 Hn2].
  split; [reflexivity|]. split; [reflexivity|]. split; [exact Hn1|]. split; [exact Hn2|].
  exact (tag_Merge_keeps_names_unique MoreSamples.regions TagSamples.degraded
           _ _ eq_refl eq_refl Hn1 Hn2).
Defined.

(** X12 — Merging the same partial tag response a second time changes the
    names no further, whatever the two lists are (nil, empty, with repeated
    names). *)
Theorem tag_Merge_twice (first second : ServerTagResponse.t) :
  Response (Merge (Merge first second).1 second).1
  = Response (Merge first second).1.
Proof.
  destruct (Response second) as [l2|] eqn:H2.
  - rewrite (Merge_response (Merge first second).1 second l2 H2).
    rewrite (@FindMerge.filter_drop_all string _ _ l2); [done|].
    intros v Hv Hout. apply Hout.
    rewrite (Merge_response first second l2 H2).
    destruct (decide (v ∈ default [] (Response first))) as [Hin|Hnin].
    + destruct (filter _ l2); [done|]. simpl. apply elem_of_app. by left.
    + assert (Hf : v ∈ filter (fun v => v ∉ default [] (Response first)) l2)
        by (by apply list_elem_of_filter).
      destruct (filter _ l2) as [|w novel]; [by apply elem_of_nil in Hf|].
      simpl. apply elem_of_app. by right.
  - unfold Merge. by rewrite H2.
Qed.

(** X13 — The empty tag aggregate is a base case of the fold: merged with a
    partial response it holds exactly the response's names, in order, and
    the empty list for a response without body. *)
Theorem tag_Merge_into_new (second : ServerTagResponse.t) :
  Response (Merge NewServerTagResponse second).1
  = Some (default [] (Response second)).
Proof.
  destruct (Response second) as [l2|] eqn:H2.
  - rewrite (Merge_response _ _ l2 H2). simpl.
    rewrite (@FindMerge.filter_keep_all string _ _ l2)
      by (intros v _; apply not_elem_of_nil).
    by destruct l2.
  - unfold Merge. by rewrite H2.
Qed.

End TagProps.

(** ** The info aggregate, continued *)

Module InfoProps.
Import ServerInfoResponse.

Section Facts.
Context {stats : Type} `{StatsOps stats} {MultiMetricsInfoResponse : Type}.

Local Abbreviation InfoMap := (gmap string MultiMetricsInfoResponse).
Local Abbreviation ZipperInfo := (ZipperInfoResponse MultiMetricsInfoResponse).
Local Abbreviation InfoResponse := (ServerInfoResponse.t stats MultiMetricsInfoResponse).

(** Assigning the entries of a map overlays it on the receiver's map. *)
Lemma assign_union (m2 m : InfoMap) :
  foldl (fun m kv => <[kv.1 := kv.2]> m) m (map_to_list m2) = m2 ∪ m.
Proof.
  apply map_eq. intros k.
  rewrite InfoMerge.assign_lookup by apply NoDup_fst_map_to_list.
  rewrite list_to_map_to_list, lookup_union.
  destruct (m2 !! k), (m !! k); done.
Qed.

(** The assignments panic exactly when there is something to assign and no
    allocated map to assign into. *)
Lemma rangeAssign_None (l : list (string * MultiMetricsInfoResponse))
    (resp : option ZipperInfo) :
  rangeAssign l resp = None
  ↔ l ≠ [] ∧ ¬ ∃ m : InfoMap, resp = Some {| Info := Some m |}.
Proof.
  destruct l as [|[k v] rest]; simpl.
  - split; [done|]. by intros [Hl _].
  - destruct resp as [[[m|]]|]; simpl.
    + rewrite InfoMerge.rangeAssign_Some. split; [done|].
      intros [_ Hn]. destruct Hn. by eexists.
    + split; [|done]. intros _. split; [done|]. by intros [m [=]].
    + split; [|done]. intros _. split; [done|]. by intros [m [=]].
Qed.

(** The receiver after a merge that brings a body into an allocated map. *)
Lemma Merge_union (first second : InfoResponse) (m1 : InfoMap) (r2 : ZipperInfo) :
  Response first = Some {| Info := Some m1 |} →
  Response second = Some r2 →
  (is_Some (Stats second) → is_Some (Stats first)) →
  ∃ first',
    Merge first second = Some (first', None)
    ∧ Response first' = Some {| Info := Some (entries r2 ∪ m1) |}
    ∧ (is_Some (Stats first) → is_Some (Stats first')).
Proof.
  intros H1 H2 Hstats. unfold Merge.
  destruct (mergeStats (Stats first) (Stats second)) as [st|] eqn:Hst.
  - rewrite H2, H1, InfoMerge.rangeAssign_Some, assign_union.
    eexists. split; [reflexivity|]. split; [done|]. simpl.
    unfold mergeStats in Hst. intros [a Ha]. rewrite Ha in Hst.
    destruct (Stats second); injection Hst as <-; by eexists.
  - unfold mergeStats in Hst.
    destruct (Stats second) as [b|]; [|done].
    destruct (Stats first) as [a|]; [done|].
    by destruct Hstats as [? ?].
Qed.

(** X14 — The order in which the runtime ranges over second's map has no
    influence: assigning its entries in any order, into any receiver
    (allocated, nil map, nil response), gives the same outcome, a panic
    included. *)
Theorem rangeAssign_any_order (l : list (string * MultiMetricsInfoResponse))
    (m2 : InfoMap) (resp : option ZipperInfo) :
  l ≡ₚ map_to_list m2 →
  rangeAssign l resp = rangeAssign (map_to_list m2) resp.
Proof.
  intros Hperm.
  assert (Hcases : (∃ m : InfoMap, resp = Some {| Info := Some m |})
                   ∨ ¬ ∃ m : InfoMap, resp = Some {| Info := Some m |}).
  { destruct resp as [[[m|]]|]; [left; by eexists|right|right]; by intros [m [=]]. }
  destruct Hcases as [[m ->]|Hno].
  - rewrite !InfoMerge.rangeAssign_Some. do 4 f_equal.
    by apply InfoMerge.assign_any_order.
  - destruct (decide (l = [])) as [->|Hl].
    + apply Permutation_nil_l in Hperm. by rewrite <- Hperm.
    + assert (Hl' : map_to_list m2 ≠ []).
      { intros He. rewrite He in Hperm. by apply Permutation_nil_r in Hperm. }
      rewrite (proj2 (rangeAssign_None l resp)) by done.
      by rewrite (proj2 (rangeAssign_None (map_to_list m2) resp)) by done.
Qed.

(** X15 — With statistics to merge into, an info merge panics exactly when
    second's body holds at least one entry and the receiver has no allocated
    map (a nil response or a nil map); an empty or nil map of second is
    merged into any receiver. *)
Theorem info_Merge_panics_iff (first second : InfoResponse) :
  (is_Some (Stats second) → is_Some (Stats first)) →
  Merge first second = None
  ↔ ∃ r2, Response second = Some r2 ∧ entries r2 ≠ ∅
          ∧ ¬ ∃ m1 : InfoMap, Response first = Some {| Info := Some m1 |}.
Proof.
  intros Hstats. unfold Merge.
  destruct (mergeStats (Stats first) (Stats second)) as [st|] eqn:Hst.
  - destruct (Response second) as [r2|].
    + destruct (rangeAssign (map_to_list (entries r2)) (Response first))
        as [resp|] eqn:Hra.
      * split; [done|]. intros (r & [= <-] & Hne & Hno).
        assert (Hn : rangeAssign (map_to_list (entries r2)) (Response first) = None).
        { apply rangeAssign_None. split; [|done].
          intros He. by apply map_to_list_empty_iff in He. }
        congruence.
      * split; [|done]. intros _. apply rangeAssign_None in Hra as [Hl Hno].
        exists r2. split; [done|]. split; [|done].
        intros He. apply Hl. by rewrite He, map_to_list_empty.
    + split; [done|]. by intros (r & [=] & _).
  - unfold mergeStats in Hst.
    destruct (Stats second) as [b|]; [|done].
    destruct (Stats first) as [a|]; [done|].
    by destruct Hstats as [? ?].
Qed.

(** X16 — Info merges compose by overlay: after merging a and then b into a
    receiver that has statistics and an allocated map, the receiver's map is
    b's map laid over a's map laid over its own, so on a key that several
    responses hold the one merged last wins. *)
Theorem info_Merge_then_Merge (first a b : InfoResponse) (m1 : InfoMap)
    (ra rb : ZipperInfo) :
  Response first = Some {| Info := Some m1 |} →
  is_Some (Stats first) →
  Response a = Some ra →
  Response b = Some rb →
  ∃ f1 f2,
    Merge first a = Some (f1, None)
    ∧ Merge f1 b = Some (f2, None)
    ∧ Response f2 = Some {| Info := Some (entries rb ∪ (entries ra ∪ m1)) |}.
Proof.
  intros H1 Hs Ha Hb.
  destruct (Merge_union first a m1 ra H1 Ha (fun _ => Hs)) as (f1 & Hm1 & Hf1 & Hs1).
  destruct (Merge_union f1 b _ rb Hf1 Hb (fun _ => Hs1 Hs)) as (f2 & Hm2 & Hf2 & _).
  by exists f1, f2.
Qed.

(** X17 — Merging the same partial info response a second time changes the
    receiver's map no further. *)
Theorem info_Merge_twice (first second : InfoResponse) (m1 : InfoMap)
    (r2 : ZipperInfo) :
  Response first = Some {| Info := Some m1 |} →
  is_Some (Stats first) →
  Response second = Some r2 →
  ∃ f1 f2,
    Merge first second = Some (f1, None)
    ∧ Merge f1 second = Some (f2, None)
    ∧ Response f2 = Response f1.
Proof.
  intros H1 Hs H2.
  destruct (Merge_union first second m1 r2 H1 H2 (fun _ => Hs))
    as (f1 & Hm1 & Hf1 & Hs1).
  destruct (Merge_union f1 second _ r2 Hf1 H2 (fun _ => Hs1 Hs)) as (f2 & Hm2 & Hf2 & _).
  exists f1, f2. split; [done|]. split; [done|].
  rewrite Hf1, Hf2. do 3 f_equal.
  by rewrite (assoc_L (∪)), (idemp_L (∪)).
Qed.

(** X18 — The empty info aggregate is a base case of the fold: merged with a
    partial response it holds exactly the entries of the response's map, and
    the empty map for a response without body. *)
Theorem info_Merge_into_new (zero : stats) (second : InfoResponse) :
  ∃ first' ret,
    Merge (NewServerInfoResponse zero) second = Some (first', ret)
    ∧ Response first'
      = Some {| Info := Some match Response second with
                             | Some r2 => entries r2
                             | None => ∅
                             end |}.
Proof.
  destruct (Response second) as [r2|] eqn:H2.
  - destruct (Merge_union (NewServerInfoResponse zero) second ∅ r2 eq_refl H2)
      as (first' & Hm & Hr & _); [intros _; by eexists|].
    exists first', None. split; [done|]. rewrite Hr. by rewrite (right_id_L ∅ (∪)).
  - unfold Merge. rewrite H2.
    change (Stats (NewServerInfoResponse zero)) with (Some zero).
    destruct (mergeStats (Some zero) (Stats second)) as [st|] eqn:Hst;
      [|by destruct (Stats second)].
    by eexists _, _.
Qed.

End Facts.

Lemma rangeAssign_any_order_witness :
  [("m1", 60); ("m0", 10)] ≡ₚ map_to_list ({[ "m1" := 60; "m0" := 10 ]} : gmap string Z) ∧
  ∀ resp : option (ZipperInfoResponse Z),
    rangeAssign [("m1", 60); ("m0", 10)] resp
    = rangeAssign (map_to_list ({[ "m1" := 60; "m0" := 10 ]} : gmap string Z)) resp.
Proof.
  assert (Hp : [("m1", 60); ("m0", 10)]
               ≡ₚ map_to_list ({[ "m1" := 60; "m0" := 10 ]} : gmap string Z)).
  { apply NoDup_Permutation.
    - apply NoDup_cons. split; [|apply NoDup_singleton].
      intros Hin%list_elem_of_singleton. discriminate Hin.
    - apply NoDup_map_to_list.
    - intros [k v]. rewrite elem_of_map_to_list.
      rewrite lookup_insert_Some, lookup_singleton_Some.
      rewrite elem_of_cons, list_elem_of_singleton.
      split.
      + intros [[= -> ->]|[= -> ->]]; [by left|]. right. split; [discriminate|done].
      + intros [[<- <-]|[_ [<- <-]]]; [by left|by right]. }
  split; [exact Hp|].
  intros resp. exact (rangeAssign_any_order _ _ resp Hp).
Defined.

Lemma info_Merge_panics_iff_witness :
  (is_Some (Stats InfoSamples.partial) → is_Some (Stats MoreSamples.unallocated)) ∧
  Merge MoreSamples.unallocated InfoSamples.partial = None.
Proof.
  assert (Hs : is_Some (Stats InfoSamples.partial) →
               is_Some (Stats MoreSamples.unallocated)).
  { intros _. exists 1. reflexivity. }
  split; [exact Hs|].
  apply (info_Merge_panics_iff MoreSamples.unallocated InfoSamples.partial Hs).
  eexists. split; [reflexivity|]. split.
  - intros He. apply (f_equal (fun m : gmap string Z => m !! "m1")) in He.
    discriminate He.
  - intros [m1 Hm1]. discriminate Hm1.
Defined.

Lemma info_Merge_then_Merge_witness :
  Response InfoSamples.running
    = Some {| Info := Some {[ "m1" := 60; "m0" := 10 ]} |} ∧
  is_Some (Stats InfoSamples.running) ∧
  Response InfoSamples.partial = Some {| Info := Some {[ "m1" := 300 ]} |} ∧
  Response InfoSamples.running
    = Some {| Info := Some {[ "m1" := 60; "m0" := 10 ]} |} ∧
  ∃ f1 f2,
    Merge InfoSamples.running InfoSamples.partial = Some (f1, None)
    ∧ Merge f1 InfoSamples.running = Some (f2, None)
    ∧ Response f2
      = Some {| Info := Some (({[ "m1" := 60; "m0" := 10 ]} : gmap string Z)
                              ∪ ({[ "m1" := 300 ]} ∪ {[ "m1" := 60; "m0" := 10 ]})) |}.
Proof.
  assert (Hs : is_Some (Stats InfoSamples.running)) by (exists 1; reflexivity).
  split; [reflexivity|]. split; [exact Hs|]. split; [reflexivity|].
  split; [reflexivity|].
  exact (info_Merge_then_Merge InfoSamples.running InfoSamples.partial
           InfoSamples.running _ _ _ eq_refl Hs eq_refl eq_refl).
Defined.

Lemma info_Merge_twice_witness :
  Response InfoSamples.running
    = Some {| Info := Some {[ "m1" := 60; "m0" := 10 ]} |} ∧
  is_Some (Stats InfoSamples.running) ∧
  Response InfoSamples.partial = Some {| Info := Some {[ "m1" := 300 ]} |} ∧
  ∃ f1 f2,
    Merge InfoSamples.running InfoSamples.partial = Some (f1, None)
    ∧ Merge f1 InfoSamples.partial = Some (f2, None)
    ∧ Response f2 = Response f1.
Proof.
  assert (Hs : is_Some (Stats InfoSamples.running)) by (exists 1; reflexivity).
  split; [reflexivity|]. split; [exact Hs|]. split; [reflexivity|].
  exact (info_Merge_twice InfoSamples.running InfoSamples.partial
           _ _ eq_refl Hs eq_refl).
Defined.

End InfoProps.

(** ** The find aggregate, continued *)

Module FindProps.
Import ServerFindResponse FindSpec.

Lemma elem_of_seenKeys (k : string) (M : list GlobResponse) :
  k ∈ seenKeys M
  ↔ ∃ f mm, f ∈ M ∧ mm ∈ Matches f ∧ k = matchKey (Name f) (Path mm).
Proof.
  unfold seenKeys. rewrite elem_of_list_to_set, list_elem_of_bind. split.
  - intros (f & (mm & -> & Hmm)%list_elem_of_fmap & Hf). by exists f, mm.
  - intros (f & mm & Hf & Hmm & ->). exists f. split; [|done].
    apply list_elem_of_fmap. by exists mm.
Qed.

Lemma seenKeys_app (A B : list GlobResponse) :
  seenKeys (A ++ B) = seenKeys A ∪ seenKeys B.
Proof. unfold seenKeys. by rewrite bind_app, list_to_set_app_L. Qed.

Lemma elem_of_candidates (c : string * GlobMatch) (F S : list GlobResponse) :
  c ∈ candidates F S
  ↔ ∃ m, m ∈ S ∧ Name m ∈ names F ∧ c.1 = Name m ∧ c.2 ∈ Matches m.
Proof.
  unfold candidates. rewrite list_elem_of_bind. split.
  - intros (m & (mm & -> & Hmm)%list_elem_of_fmap & [Hk Hm]%list_elem_of_filter).
    by exists m.
  - intros (m & Hm & Hk & Hn & Hmm). exists m. split.
    + apply list_elem_of_fmap. exists c.2. split; [|done].
      destruct c as [n mm]. simpl in *. by rewrite Hn.
    + by apply list_elem_of_filter.
Qed.

Lemma names_fileMatches (F M : list GlobResponse) (kept : list (string * GlobMatch)) :
  names (fileMatches F kept M) = names M.
Proof.
  apply list_eq. intros i. unfold names, fileMatches.
  rewrite !list_lookup_fmap, list_lookup_imap.
  by destruct (M !! i).
Qed.

Lemma names_appendedEntries (F S : list GlobResponse) :
  names (appendedEntries F S) = filter (fun n => n ∉ names F) (names S).
Proof.
  unfold appendedEntries, names.
  induction S as [|m rest IH]; [done|]. rewrite fmap_cons, !filter_cons. cbn beta.
  destruct (decide (Name m ∉ Name <$> F)); [rewrite fmap_cons|]; by rewrite IH.
Qed.

Lemma names_mergeSpec (F S : list GlobResponse) :
  names (mergeSpec F S) = names F ++ filter (fun n => n ∉ names F) (names S).
Proof.
  unfold mergeSpec, mergedEntries. unfold names at 1. rewrite fmap_app.
  fold (names (fileMatches F (novelMatches (seenKeys F) (candidates F S)) F)).
  fold (names (appendedEntries F S)).
  by rewrite names_fileMatches, names_appendedEntries.
Qed.

(** Keeping the first occurrences loses no key. *)
Lemma novelMatches_keys (cands : list (string * GlobMatch)) :
  ∀ seen : gset string,
    seen ∪ list_to_set (candKey <$> novelMatches seen cands)
    = seen ∪ list_to_set (candKey <$> cands).
Proof.
  induction cands as [|c rest IH]; intros seen; simpl; [done|].
  destruct (decide (candKey c ∈ seen)) as [Hin|Hout].
  - rewrite IH. set_solver.
  - rewrite fmap_cons. simpl.
    specialize (IH ({[candKey c]} ∪ seen)). set_solver.
Qed.

Lemma novelMatches_all_seen (cands : list (string * GlobMatch)) (seen : gset string) :
  (∀ c, c ∈ cands → candKey c ∈ seen) → novelMatches seen cands = [].
Proof.
  induction cands as [|c rest IH]; intros Hall; simpl; [done|].
  rewrite decide_True by (apply Hall; left).
  apply IH. intros c' Hc'. apply Hall. by right.
Qed.

(** The keys of the receiver's entries after the kept matches were filed. *)
Lemma seenKeys_fileMatches (F : list GlobResponse) (kept : list (string * GlobMatch)) :
  (∀ c, c ∈ kept → c.1 ∈ names F) →
  seenKeys (fileMatches F kept F) = seenKeys F ∪ list_to_set (candKey <$> kept).
Proof.
  intros Hknown. apply set_eq. intros k.
  rewrite elem_of_union, !elem_of_seenKeys, elem_of_list_to_set, list_elem_of_fmap.
  split.
  - intros (f' & mm & Hf' & Hmm & ->).
    apply list_elem_of_lookup in Hf' as [i Hi]. unfold fileMatches in Hi.
    rewrite list_lookup_imap in Hi.
    destruct (F !! i) as [f|] eqn:Hf; [|done]. injection Hi as <-.
    simpl in Hmm. apply elem_of_app in Hmm as [Hmm|Hmm].
    + left. exists f, mm. split; [by eapply list_elem_of_lookup_2|done].
    + right. apply list_elem_of_fmap in Hmm as (c & -> & Hc).
      apply list_elem_of_filter in Hc as [Hidx Hc].
      exists c. split; [|done].
      apply FindMerge.lastIndex_Some in Hidx as (g & Hg & Hname).
      assert (g = f) as -> by congruence.
      unfold candKey. simpl. by rewrite Hname.
  - intros [(f & mm & Hf & Hmm & ->)|(c & -> & Hc)].
    + apply list_elem_of_lookup in Hf as [i Hi].
      exists (addMatches f (snd <$> filter (fun c => lastIndex c.1 F = Some i) kept)), mm.
      split; [|split; [|done]].
      * apply list_elem_of_lookup. exists i. unfold fileMatches.
        by rewrite list_lookup_imap, Hi.
      * simpl. apply elem_of_app. by left.
    + destruct (lastIndex c.1 F) as [i|] eqn:Hidx.
      * destruct (FindMerge.lastIndex_Some _ _ _ Hidx) as (f & Hf & Hname).
        exists (addMatches f (snd <$> filter (fun c => lastIndex c.1 F = Some i) kept)), c.2.
        split; [|split].
        -- apply list_elem_of_lookup. exists i. unfold fileMatches.
           by rewrite list_lookup_imap, Hf.
        -- simpl. apply elem_of_app. right. apply list_elem_of_fmap.
           exists c. split; [done|]. by apply list_elem_of_filter.
        -- unfold candKey. simpl. by rewrite Hname.
      * apply FindMerge.lastIndex_None in Hidx. destruct Hidx. by apply Hknown.
Qed.

Lemma seenKeys_split (F S : list GlobResponse) :
  seenKeys S
  = list_to_set (candKey <$> candidates F S) ∪ seenKeys (appendedEntries F S).
Proof.
  apply set_eq. intros k.
  rewrite elem_of_union, !elem_of_seenKeys, elem_of_list_to_set, list_elem_of_fmap.
  split.
  - intros (m & mm & Hm & Hmm & ->).
    destruct (decide (Name m ∈ names F)) as [Hin|Hout].
    + left. exists (Name m, mm). split; [done|].
      apply elem_of_candidates. by exists m.
    + right. exists m, mm. split; [|done]. by apply list_elem_of_filter.
  - intros [(c & -> & (m & Hm & _ & Hn & Hmm)%elem_of_candidates)
           |(m & mm & [_ Hm]%list_elem_of_filter & Hmm & ->)].
    + exists m, c.2. split; [done|]. split; [done|]. unfold candKey. by rewrite Hn.
    + by exists m, mm.
Qed.

Lemma seenKeys_mergeSpec (F S : list GlobResponse) :
  seenKeys (mergeSpec F S) = seenKeys F ∪ seenKeys S.
Proof.
  unfold mergeSpec, mergedEntries. rewrite seenKeys_app, seenKeys_fileMatches.
  - rewrite novelMatches_keys, (seenKeys_split F S). set_solver.
  - intros c Hc%FindMerge.novelMatches_elem_of.
    apply elem_of_candidates in Hc as (m & _ & Hk & -> & _). done.
Qed.

(** A partial response that brings nothing new leaves the entries alone. *)
Lemma mergeSpec_absorbed (F S : list GlobResponse) :
  (∀ m, m ∈ S → Name m ∈ names F) →
  seenKeys S ⊆ seenKeys F →
  mergeSpec F S = F.
Proof.
  intros Hnames Hkeys. unfold mergeSpec, mergedEntries, appendedEntries.
  rewrite (FindMerge.filter_drop_all _ S)
    by (intros m Hm Hout; apply Hout; by apply Hnames).
  rewrite novelMatches_all_seen.
  - by rewrite FindMerge.fileMatches_nil, app_nil_r.
  - intros c (m & Hm & _ & Hn & Hmm)%elem_of_candidates.
    apply Hkeys, elem_of_seenKeys. exists m, c.2.
    split; [done|]. split; [done|]. unfold candKey. by rewrite Hn.
Qed.

Section Facts.
Context {stats : Type} `{StatsOps stats}.

(** The receiver after a merge that brings a body. *)
Lemma find_Merge_spec (first second : ServerFindResponse.t stats)
    (r1 r2 : MultiGlobResponse) :
  Response first = Some r1 →
  Response second = Some r2 →
  (is_Some (Stats second) → is_Some (Stats first)) →
  ∃ first',
    Merge first second = Some (first', None)
    ∧ Response first' = Some {| Metrics := mergeSpec (Metrics r1) (Metrics r2) |}
    ∧ (is_Some (Stats first) → is_Some (Stats first')).
Proof.
  intros Hr1 Hr2 Hstats. unfold Merge.
  destruct (mergeStats (Stats first) (Stats second)) as [st|] eqn:Hst.
  - rewrite Hr1, Hr2.
    destruct (indexMetrics 0 (Metrics r1) ∅ ∅) as [sm K0] eqn:Hidx.
    assert (Hsm : ∀ n, sm !! n = lastIndex n (Metrics r1)).
    { intros n. change sm with (sm, K0).1.
      rewrite <- Hidx, FindMerge.indexMetrics_lookup.
      by destruct (lastIndex n (Metrics r1)). }
    assert (HK0 : K0 = seenKeys (Metrics r1)).
    { change K0 with (sm, K0).2. rewrite <- Hidx, FindMerge.indexMetrics_seen.
      by rewrite (left_id_L ∅ (∪)). }
    destruct (FindMerge.mergeMetrics_spec (Metrics r1) sm Hsm (Metrics r2)
                (Metrics r1) [] K0) as [K' HK']; [done|].
    rewrite app_nil_r in HK'. rewrite HK'. subst K0.
    eexists. split; [reflexivity|]. split; [done|]. simpl.
    unfold mergeStats in Hst. intros [a Ha]. rewrite Ha in Hst.
    destruct (Stats second); injection Hst as <-; by eexists.
  - unfold mergeStats in Hst.
    destruct (Stats second) as [b|]; [|done].
    destruct (Stats first) as [a|]; [done|].
    by destruct Hstats as [? ?].
Qed.

(** X19 — A find merge keeps the receiver's metric names in place and appends
    the names of second that the receiver did not have, in second's order;
    so if neither side repeats a metric name, the merged receiver repeats
    none. *)
Theorem find_Merge_names (first second : ServerFindResponse.t stats)
    (r1 r2 : MultiGlobResponse) :
  Response first = Some r1 →
  Response second = Some r2 →
  (is_Some (Stats second) → is_Some (Stats first)) →
  ∃ first' r1',
    Merge first second = Some (first', None)
    ∧ Response first' = Some r1'
    ∧ names (Metrics r1')
      = names (Metrics r1)
        ++ filter (fun n => n ∉ names (Metrics r1)) (names (Metrics r2))
    ∧ (NoDup (names (Metrics r1)) → NoDup (names (Metrics r2)) →
       NoDup (names (Metrics r1'))).
Proof.
  intros Hr1 Hr2 Hstats.
  destruct (find_Merge_spec first second r1 r2 Hr1 Hr2 Hstats) as (first' & Hm & Hr & _).
  exists first'. eexists. split; [done|]. split; [done|]. simpl.
  split; [apply names_mergeSpec|].
  intros Hn1 Hn2. rewrite names_mergeSpec. apply NoDup_app.
  split; [done|]. split.
  - intros n Hn [Hout _]%list_elem_of_filter. by apply Hout.
  - by apply NoDup_filter.
Qed.

(** X20 — A find merge never modifies what the receiver had and never invents
    a match: every entry of the receiver stays at its position with its name
    and with its own matches first, and every match added behind them is a
    match of an entry of second with that same name. *)
Theorem find_Merge_frame (first second : ServerFindResponse.t stats)
    (r1 r2 : MultiGlobResponse) :
  Response first = Some r1 →
  Response second = Some r2 →
  (is_Some (Stats second) → is_Some (Stats first)) →
  ∃ first' r1',
    Merge first second = Some (first', None)
    ∧ Response first' = Some r1'
    ∧ ∀ i f, Metrics r1 !! i = Some f →
        ∃ extra,
          Metrics r1' !! i = Some {| Name := Name f; Matches := Matches f ++ extra |}
          ∧ ∀ mm, mm ∈ extra →
              ∃ m, m ∈ Metrics r2 ∧ Name m = Name f ∧ mm ∈ Matches m.
Proof.
  intros Hr1 Hr2 Hstats.
  destruct (find_Merge_spec first second r1 r2 Hr1 Hr2 Hstats) as (first' & Hm & Hr & _).
  exists first'. eexists. split; [done|]. split; [done|]. simpl.
  intros i f Hf. eexists. split.
  - unfold mergeSpec, mergedEntries. rewrite lookup_app_l.
    + unfold fileMatches. rewrite list_lookup_imap, Hf. reflexivity.
    + unfold fileMatches. rewrite length_imap. by eapply lookup_lt_Some.
  - intros mm (c & -> & Hc)%list_elem_of_fmap.
    apply list_elem_of_filter in Hc as [Hidx Hc].
    apply FindMerge.novelMatches_elem_of in Hc.
    apply elem_of_candidates in Hc as (m & Hm' & _ & Hn & Hmm).
    exists m. split; [done|]. split; [|done].
    apply FindMerge.lastIndex_Some in Hidx as (g & Hg & Hname).
    assert (g = f) as -> by congruence. congruence.
Qed.

(** X21 — A find merge loses no key and invents none: the strings
    name + "." + path of the matches of the merged receiver are those of the
    receiver's matches together with those of second's matches. *)
Theorem find_Merge_keys (first second : ServerFindResponse.t stats)
    (r1 r2 : MultiGlobResponse) :
  Response first = Some r1 →
  Response second = Some r2 →
  (is_Some (Stats second) → is_Some (Stats first)) →
  ∃ first' r1',
    Merge first second = Some (first', None)
    ∧ Response first' = Some r1'
    ∧ seenKeys (Metrics r1') = seenKeys (Metrics r1) ∪ seenKeys (Metrics r2).
Proof.
  intros Hr1 Hr2 Hstats.
  destruct (find_Merge_spec first second r1 r2 Hr1 Hr2 Hstats) as (first' & Hm & Hr & _).
  exists first'. eexists. split; [done|]. split; [done|]. apply seenKeys_mergeSpec.
Qed.

(** X22 — A partial find response that brings nothing new is absorbed: if
    every metric name of second is a name of the receiver and every key of
    second's matches is a key of the receiver's matches, the receiver's
    entries are left exactly as they were.  In particular a response merged
    with a copy of itself is unchanged. *)
Theorem find_Merge_absorbs (first second : ServerFindResponse.t stats)
    (r1 r2 : MultiGlobResponse) :
  Response first = Some r1 →
  Response second = Some r2 →
  (is_Some (Stats second) → is_Some (Stats first)) →
  (∀ m, m ∈ Metrics r2 → Name m ∈ names (Metrics r1)) →
  seenKeys (Metrics r2) ⊆ seenKeys (Metrics r1) →
  ∃ first',
    Merge first second = Some (first', None)
    ∧ Response first' = Some {| Metrics := Metrics r1 |}.
Proof.
  intros Hr1 Hr2 Hstats Hnames Hkeys.
  destruct (find_Merge_spec first second r1 r2 Hr1 Hr2 Hstats) as (first' & Hm & Hr & _).
  exists first'. split; [done|]. by rewrite Hr, mergeSpec_absorbed.
Qed.

(** X23 — Merging the same partial find response a second time changes the
    receiver's entries no further, whatever the two responses hold. *)
Theorem find_Merge_twice (first second : ServerFindResponse.t stats)
    (r1 r2 : MultiGlobResponse) :
  Response first = Some r1 →
  Response second = Some r2 →
  is_Some (Stats first) →
  ∃ f1 f2,
    Merge first second = Some (f1, None)
    ∧ Merge f1 second = Some (f2, None)
    ∧ Response f2 = Response f1.
Proof.
  intros Hr1 Hr2 Hs.
  destruct (find_Merge_spec first second r1 r2 Hr1 Hr2 (fun _ => Hs))
    as (f1 & Hm1 & Hf1 & Hs1).
  destruct (find_Merge_spec f1 second _ r2 Hf1 Hr2 (fun _ => Hs1 Hs))
    as (f2 & Hm2 & Hf2 & _).
  exists f1, f2. split; [done|]. split; [done|].
  rewrite Hf1, Hf2. simpl. do 2 f_equal. apply mergeSpec_absorbed.
  - intros m Hm. rewrite names_mergeSpec. apply elem_of_app.
    destruct (decide (Name m ∈ names (Metrics r1))) as [Hin|Hout]; [by left|].
    right. apply list_elem_of_filter. split; [done|].
    by apply list_elem_of_fmap_2.
  - rewrite seenKeys_mergeSpec. set_solver.
Qed.

(** X24 — The empty find aggregate is a base case of the fold: merged with a
    partial response it holds exactly the entries of the response, in order
    and with all their matches. *)
Theorem find_Merge_into_new (zero : stats) (second : ServerFindResponse.t stats)
    (r2 : MultiGlobResponse) :
  Response second = Some r2 →
  ∃ first',
    Merge (NewServerFindResponse zero) second = Some (first', None)
    ∧ Response first' = Some {| Metrics := Metrics r2 |}.
Proof.
  intros Hr2.
  destruct (find_Merge_spec (NewServerFindResponse zero) second _ r2 eq_refl Hr2)
    as (first' & Hm & Hr & _); [intros _; by eexists|].
  exists first'. split; [done|]. rewrite Hr. simpl. do 2 f_equal.
  unfold mergeSpec, mergedEntries, appendedEntries, candidates. simpl.
  rewrite (FindMerge.filter_keep_all _ (Metrics r2))
    by (intros m _; apply not_elem_of_nil).
  done.
Qed.

End Facts.

Lemma sample_find_responses :
  Response FindSamples.running
  = Some {| Metrics :=
      [ {| Name := "a.b"; Matches := [ {| Path := "c"; IsLeaf := true |} ] |};
        {| Name := "a"; Matches := [] |} ] |}
  ∧ Response FindSamples.partial
    = Some {| Metrics :=
        [ {| Name := "a"; Matches := [ {| Path := "b.c"; IsLeaf := true |};
                                       {| Path := "d"; IsLeaf := true |} ] |};
          {| Name := "z"; Matches := [ {| Path := "y"; IsLeaf := false |} ] |} ] |}
  ∧ (is_Some (Stats FindSamples.partial) → is_Some (Stats FindSamples.running))
  ∧ is_Some (Stats FindSamples.running).
Proof.
  split; [reflexivity|]. split; [reflexivity|].
  split; [intros _|]; exists 1; reflexivity.
Defined.

Lemma find_Merge_names_witness :
  Response FindSamples.running
  = Some {| Metrics :=
      [ {| Name := "a.b"; Matches := [ {| Path := "c"; IsLeaf := true |} ] |};
        {| Name := "a"; Matches := [] |} ] |}
  ∧ Response FindSamples.partial
    = Some {| Metrics :=
        [ {| Name := "a"; Matches := [ {| Path := "b.c"; IsLeaf := true |};
                                       {| Path := "d"; IsLeaf := true |} ] |};
          {| Name := "z"; Matches := [ {| Path := "y"; IsLeaf := false |} ] |} ] |}
  ∧ (is_Some (Stats FindSamples.partial) → is_Some (Stats FindSamples.running))
  ∧ ∃ first' r1',
      Merge FindSamples.running FindSamples.partial = Some (first', None)
      ∧ Response first' = Some r1'
      ∧ names (Metrics r1') = ["a.b"; "a"; "z"].
Proof.
  destruct sample_find_responses as (H1 & H2 & Hs & _).
  split; [exact H1|]. split; [exact H2|]. split; [exact Hs|].
  destruct (find_Merge_names FindSamples.running FindSamples.partial _ _ H1 H2 Hs)
    as (first' & r1' & Hm & Hr & Hn & _).
  exists first', r1'. split; [exact Hm|]. split; [exact Hr|]. rewrite Hn.
  vm_compute. reflexivity.
Defined.

Lemma find_Merge_frame_witness :
  Response FindSamples.running
  = Some {| Metrics :=
      [ {| Name := "a.b"; Matches := [ {| Path := "c"; IsLeaf := true |} ] |};
        {| Name := "a"; Matches := [] |} ] |}
  ∧ Response FindSamples.partial
    = Some {| Metrics :=
        [ {| Name := "a"; Matches := [ {| Path := "b.c"; IsLeaf := true |};
                                       {| Path := "d"; IsLeaf := true |} ] |};
          {| Name := "z"; Matches := [ {| Path := "y"; IsLeaf := false |} ] |} ] |}
  ∧ (is_Some (Stats FindSamples.partial) → is_Some (Stats FindSamples.running))
  ∧ ∃ first' r1',
      Merge FindSamples.running FindSamples.partial = Some (first', None)
      ∧ Response first' = Some r1'
      ∧ ∃ extra,
          Metrics r1' !! 0%nat
          = Some {| Name := "a.b";
                    Matches := [ {| Path := "c"; IsLeaf := true |} ] ++ extra |}.
Proof.
  destruct sample_find_responses as (H1 & H2 & Hs & _).
  split; [exact H1|]. split; [exact H2|]. split; [exact Hs|].
  destruct (find_Merge_frame FindSamples.running FindSamples.partial _ _ H1 H2 Hs)
    as (first' & r1' & Hm & Hr & Hframe).
  exists first', r1'. split; [exact Hm|]. split; [exact Hr|].
  destruct (Hframe 0%nat _ eq_refl) as (extra & Hl & _).
  exists extra. exact Hl.
Defined.

Lemma find_Merge_keys_witness :
  Response FindSamples.running
  = Some {| Metrics :=
      [ {| Name := "a.b"; Matches := [ {| Path := "c"; IsLeaf := true |} ] |};
        {| Name := "a"; Matches := [] |} ] |}
  ∧ Response FindSamples.partial
    = Some {| Metrics :=
        [ {| Name := "a"; Matches := [ {| Path := "b.c"; IsLeaf := true |};
                                       {| Path := "d"; IsLeaf := true |} ] |};
          {| Name := "z"; Matches := [ {| Path := "y"; IsLeaf := false |} ] |} ] |}
  ∧ (is_Some (Stats FindSamples.partial) → is_Some (Stats FindSamples.running))
  ∧ ∃ first' r1' r1 r2,
      Merge FindSamples.running FindSamples.partial = Some (first', None)
      ∧ Response first' = Some r1'
      ∧ Response FindSamples.running = Some r1
      ∧ Response FindSamples.partial = Some r2
      ∧ seenKeys (Metrics r1') = seenKeys (Metrics r1) ∪ seenKeys (Metrics r2).
Proof.
  destruct sample_find_responses as (H1 & H2 & Hs & _).
  split; [exact H1|]. split; [exact H2|]. split; [exact Hs|].
  destruct (find_Merge_keys FindSamples.running FindSamples.partial _ _ H1 H2 Hs)
    as (first' & r1' & Hm & Hr & Hk).
  exists first', r1'. eexists _, _.
  split; [exact Hm|]. split; [exact Hr|]. split; [exact H1|]. split; [exact H2|].
  exact Hk.
Defined.

Lemma find_Merge_absorbs_witness :
  (is_Some (Stats FindSamples.running) → is_Some (Stats FindSamples.running))
  ∧ ∃ first',
      Merge FindSamples.running FindSamples.running = Some (first', None)
      ∧ Response first' = Response FindSamples.running.
Proof.
  destruct sample_find_responses as (H1 & _ & _ & Hs).
  split; [intros _; exact Hs|].
  destruct (find_Merge_absorbs FindSamples.running FindSamples.running _ _ H1 H1
              (fun _ => Hs)) as (first' & Hm & Hr).
  - intros m Hm. by apply list_elem_of_fmap_2.
  - done.
  - exists first'. split; [exact Hm|]. rewrite Hr. reflexivity.
Defined.

Lemma find_Merge_twice_witness :
  Response FindSamples.running
  = Some {| Metrics :=
      [ {| Name := "a.b"; Matches := [ {| Path := "c"; IsLeaf := true |} ] |};
        {| Name := "a"; Matches := [] |} ] |}
  ∧ Response FindSamples.partial
    = Some {| Metrics :=
        [ {| Name := "a"; Matches := [ {| Path := "b.c"; IsLeaf := true |};
                                       {| Path := "d"; IsLeaf := true |} ] |};
          {| Name := "z"; Matches := [ {| Path := "y"; IsLeaf := false |} ] |} ] |}
  ∧ is_Some (Stats FindSamples.running)
  ∧ ∃ f1 f2,
      Merge FindSamples.running FindSamples.partial = Some (f1, None)
      ∧ Merge f1 FindSamples.partial = Some (f2, None)
      ∧ Response f2 = Response f1.
Proof.
  destruct sample_find_responses as (H1 & H2 & _ & Hs).
  split; [exact H1|]. split; [exact H2|]. split; [exact Hs|].
  exact (find_Merge_twice FindSamples.running FindSamples.partial _ _ H1 H2 Hs).
Defined.

Lemma find_Merge_into_new_witness :
  Response FindSamples.partial
  = Some {| Metrics :=
      [ {| Name := "a"; Matches := [ {| Path := "b.c"; IsLeaf := true |};
                                     {| Path := "d"; IsLeaf := true |} ] |};
        {| Name := "z"; Matches := [ {| Path := "y"; IsLeaf := false |} ] |} ] |}
  ∧ ∃ first',
      Merge (NewServerFindResponse 0) FindSamples.partial = Some (first', None)
      ∧ Response first' = Response FindSamples.partial.
Proof.
  destruct sample_find_responses as (_ & H2 & _ & _).
  split; [exact H2|].
  destruct (find_Merge_into_new 0 FindSamples.partial _ H2) as (first' & Hm & Hr).
  exists first'. split; [exact Hm|]. rewrite Hr. reflexivity.
Defined.

End FindProps.
